(** * The client-side core of video_manager: event bus, reactive store,
      loading-state tracker and WebSocket manager

    Shallow embedding of the class of [static/js/core/StateManager.js] and
    of three of the classes in [static/js/core/WebSocketManager.js]:
    [WebSocketManager], [EventBus] and [LoadingStateManager].

    JavaScript objects are mutable and methods run callbacks that may throw.
    Each class is therefore embedded as functions in a small state and
    exception monad over a "world" record holding the fields of the object,
    the console, and a log of the function calls the class performs. *)

From Stdlib Require Import Floats.
From stdpp Require Import gmap strings list.

(** ** JavaScript values, strict equality, completions *)

Module Js.

(** Primitive values are structural, objects (arrays, functions, plain
    objects) are known by their heap address only. Numbers are IEEE 754
    doubles, exactly as in the language. *)
Inductive Value : Type :=
| VUndefined
| VNull
| VBool (b : bool)
| VNum (x : float)
| VStr (s : string)
| VRef (addr : nat).

(** The [===] operator: no coercion, [NaN !== NaN], [+0 === -0], objects by
    identity. *)
Definition strict_eq (a b : Value) : bool :=
  match a, b with
  | VUndefined, VUndefined => true
  | VNull, VNull => true
  | VBool x, VBool y => bool_decide (x = y)
  | VNum x, VNum y => PrimFloat.eqb x y
  | VStr x, VStr y => bool_decide (x = y)
  | VRef x, VRef y => bool_decide (x = y)
  | _, _ => false
  end.

(** How a call ends: it returns a value or throws one. *)
Inductive Completion (A : Type) : Type :=
| Return (a : A)
| Throw (error : Value).
Arguments Return {A} a.
Arguments Throw {A} error.

(** A method over a world [W]. *)
Definition M (W A : Type) : Type := W -> W * Completion A.

Definition ret {W A} (a : A) : M W A := fun w => (w, Return a).

Definition throw {W A} (error : Value) : M W A := fun w => (w, Throw error).

Definition bind {W A B} (c : M W A) (k : A -> M W B) : M W B :=
  fun w =>
    match c w with
    | (w', Return a) => k a w'
    | (w', Throw error) => (w', Throw error)
    end.

(** [try { c } catch (error) { handler error }] *)
Definition try_catch {W A} (c : M W A) (handler : Value -> M W A) : M W A :=
  fun w =>
    match c w with
    | (w', Return a) => (w', Return a)
    | (w', Throw error) => handler error w'
    end.

Definition gets {W A} (f : W -> A) : M W A := fun w => (w, Return (f w)).

Definition modify {W} (f : W -> W) : M W unit := fun w => (f w, Return tt).

Notation "x <- c ;; k" := (bind c (fun x => k))
  (at level 100, c at next level, right associativity).
Notation "c ;;; k" := (bind c (fun _ => k))
  (at level 100, right associativity).

(** [l.forEach(f)]: the calls are made in index order, an exception leaves
    the loop. *)
Fixpoint for_each {W A} (f : A -> M W unit) (l : list A) : M W unit :=
  match l with
  | [] => ret tt
  | x :: rest => f x ;;; for_each f rest
  end.

(** [Array.prototype.indexOf], [None] standing for [-1]. *)
Fixpoint indexOf {A} `{EqDecision A} (l : list A) (x : A) : option nat :=
  match l with
  | [] => None
  | y :: rest => if decide (y = x) then Some 0 else S <$> indexOf rest x
  end.

(** [l.splice(index, 1)] *)
Definition splice1 {A} (index : nat) (l : list A) : list A :=
  take index l ++ drop (S index) l.

(** [const index = l.indexOf(x); if (index > -1) l.splice(index, 1)] *)
Definition remove_first {A} `{EqDecision A} (l : list A) (x : A) : list A :=
  match indexOf l x with
  | Some index => splice1 index l
  | None => l
  end.

(** *** Prototypes

    An object that does not hold a name itself is asked through its chain
    of prototypes. What a lookup finds on a chain is one of three things: no
    holder, a writable data property, or the accessor [__proto__] of
    [Object.prototype], whose getter returns the prototype of the object
    the lookup started from and whose setter replaces it. *)
Inductive Slot : Type :=
| Missing
| Member (value : Value)
| ProtoAccessor.

(** [Object.prototype], where the chain of every object literal ends, and
    the functions it holds, each an object of its own. *)
Definition Object_prototype : nat := 0.

Definition Object_prototype_methods : list (string * nat) :=
  [("constructor", 1); ("__defineGetter__", 2); ("__defineSetter__", 3);
   ("hasOwnProperty", 4); ("__lookupGetter__", 5); ("__lookupSetter__", 6);
   ("isPrototypeOf", 7); ("propertyIsEnumerable", 8); ("toString", 9);
   ("valueOf", 10); ("toLocaleString", 11)].

Definition Object_prototype_slot (property : string) : Slot :=
  if bool_decide (property = "__proto__") then ProtoAccessor
  else
    match list_find (fun entry => entry.1 = property)
                    Object_prototype_methods with
    | Some (_, entry) => Member (VRef entry.2)
    | None => Missing
    end.

End Js.

(** ** Facts about [indexOf] and [splice] *)

Module JsFacts.
Import Js.

Section Arrays.
Context {A : Type} `{EqDecision A}.
Implicit Types (l r : list A) (x : A).

Lemma indexOf_absent l x : x ∉ l -> indexOf l x = None.
Proof.
  induction l as [| y rest IH]; intros Hx; cbn [indexOf]; [reflexivity |].
  apply not_elem_of_cons in Hx as [Hne Hrest].
  rewrite decide_False by congruence. by rewrite IH.
Qed.

Lemma indexOf_present l x : x ∈ l -> exists i, indexOf l x = Some i /\ i < length l.
Proof.
  induction l as [| y rest IH]; intros Hx; [by apply elem_of_nil in Hx |].
  cbn [indexOf]. destruct (decide (y = x)) as [-> | Hne].
  - exists 0. split; [reflexivity | cbn; lia].
  - apply elem_of_cons in Hx as [-> | Hx]; [congruence |].
    destruct (IH Hx) as (i & -> & Hi). exists (S i).
    split; [reflexivity | cbn; lia].
Qed.

Lemma remove_first_absent l x : x ∉ l -> remove_first l x = l.
Proof. intros Hx. unfold remove_first. by rewrite indexOf_absent. Qed.

Lemma remove_first_cons_eq l x : remove_first (x :: l) x = l.
Proof.
  unfold remove_first. cbn [indexOf]. by rewrite decide_True.
Qed.

Lemma remove_first_cons_ne l x y :
  y <> x -> remove_first (y :: l) x = y :: remove_first l x.
Proof.
  intros Hne. unfold remove_first. cbn [indexOf].
  rewrite decide_False by exact Hne.
  by destruct (indexOf l x).
Qed.

(** Removing the element that was just pushed, when it was not there
    before, gives the array back. *)
Lemma remove_first_pushed l x : x ∉ l -> remove_first (l ++ [x]) x = l.
Proof.
  induction l as [| y rest IH]; intros Hx.
  - apply remove_first_cons_eq.
  - apply not_elem_of_cons in Hx as [Hne Hrest]. cbn [app].
    rewrite remove_first_cons_ne by congruence. by rewrite IH.
Qed.

(** [indexOf] finds the first occurrence: what is behind it stays. *)
Lemma remove_first_app l r x :
  x ∈ l -> remove_first (l ++ r) x = remove_first l x ++ r.
Proof.
  induction l as [| y rest IH]; intros Hx; [by apply elem_of_nil in Hx |].
  cbn [app]. destruct (decide (y = x)) as [-> | Hne].
  - by rewrite !remove_first_cons_eq.
  - apply elem_of_cons in Hx as [-> | Hx]; [congruence |].
    rewrite !remove_first_cons_ne by exact Hne. cbn [app]. by rewrite IH.
Qed.

Lemma remove_first_length l x :
  x ∈ l -> S (length (remove_first l x)) = length l.
Proof.
  induction l as [| y rest IH]; intros Hx; [by apply elem_of_nil in Hx |].
  destruct (decide (y = x)) as [-> | Hne].
  - by rewrite remove_first_cons_eq.
  - apply elem_of_cons in Hx as [-> | Hx]; [congruence |].
    rewrite remove_first_cons_ne by exact Hne. cbn [length]. by rewrite IH.
Qed.

End Arrays.

End JsFacts.

(** ** EventBus *)

Module EventBus.
Import Js.

(** Functions are compared by identity. A subscriber is either a function of
    the application, known by its identity [id], or the closure that [once]
    allocates around a callback; [wid] is the identity of that closure, one
    per call of [once]. *)
Inductive Callback : Type :=
| Fn (id : nat)
| OnceWrapper (wid : nat) (eventName : string) (callback : Callback).

#[global] Instance Callback_eq_dec : EqDecision Callback.
Proof. solve_decision. Defined.

(** The fields set by the constructor. *)
Record Self : Type := mkSelf {
  events : gmap string (list Callback);
  onceEvents : gmap string (list Callback)
}.

Definition new_EventBus : Self := {| events := ∅; onceEvents := ∅ |}.

(** The function returned by [on] and [once]: [() => this.off(eventName,
    callback)]. *)
Record Unsubscribe : Type := mkUnsubscribe {
  un_eventName : string;
  un_callback : Callback
}.

Inductive LogEntry : Type :=
| ConsoleError (eventName : string) (error : Value).

(** [on]: creates the array on first use and pushes at its end. *)
Definition on (eventName : string) (callback : Callback) (b : Self)
  : Self * Unsubscribe :=
  let evs :=
    match events b !! eventName with
    | None => <[eventName := []]> (events b)
    | Some _ => events b
    end in
  let callbacks := default [] (evs !! eventName) in
  ({| events := <[eventName := callbacks ++ [callback]]> evs;
      onceEvents := onceEvents b |},
   {| un_eventName := eventName; un_callback := callback |}).

(** [off]: with no callback (any falsy argument) every subscriber of the
    event goes; otherwise the first occurrence of the callback, and the entry
    of the map when the array becomes empty. *)
Definition off (eventName : string) (callback : option Callback) (b : Self)
  : Self :=
  match events b !! eventName with
  | None => b
  | Some callbacks =>
    match callback with
    | None =>
      {| events := delete eventName (events b); onceEvents := onceEvents b |}
    | Some cb =>
      let callbacks' := remove_first callbacks cb in
      if bool_decide (length callbacks' = 0)
      then {| events := delete eventName (events b);
              onceEvents := onceEvents b |}
      else {| events := <[eventName := callbacks']> (events b);
              onceEvents := onceEvents b |}
    end
  end.

(** [once] allocates the wrapper closure (at identity [wid]) and subscribes
    it. *)
Definition once (wid : nat) (eventName : string) (callback : Callback)
  (b : Self) : Self * Unsubscribe :=
  on eventName (OnceWrapper wid eventName callback) b.

Definition call_unsubscribe (u : Unsubscribe) (b : Self) : Self :=
  off (un_eventName u) (Some (un_callback u)) b.

Definition clear (b : Self) : Self := {| events := ∅; onceEvents := ∅ |}.

Definition listenerCount (eventName : string) (b : Self) : nat :=
  match events b !! eventName with
  | None => 0
  | Some callbacks => length callbacks
  end.

Section Dispatch.

(** The rest of the heap, as far as the callbacks of the application can
    reach it. *)
Variable Env : Type.

(** What the function [id] of the application does when called with [args]:
    any change of the bus (it may subscribe, unsubscribe, emit) and of the
    rest of the heap, and then either a normal return ([None]) or a thrown
    value. *)
Variable user : nat -> list Value -> Self * Env -> Self * Env * option Value.

Record World : Type := mkWorld {
  bus : Self;
  env : Env;
  console : list LogEntry;
  (** every function call made by the code of the bus, in order *)
  calls : list (Callback * list Value)
}.

Definition log_call (c : Callback) (args : list Value) : M World unit :=
  modify (fun w =>
    {| bus := bus w; env := env w; console := console w;
       calls := calls w ++ [(c, args)] |}).

Definition modify_bus (f : Self -> Self) : M World unit :=
  modify (fun w =>
    {| bus := f (bus w); env := env w; console := console w;
       calls := calls w |}).

Definition console_error (eventName : string) (error : Value) : M World unit :=
  modify (fun w =>
    {| bus := bus w; env := env w;
       console := console w ++ [ConsoleError eventName error];
       calls := calls w |}).

Definition run_user (id : nat) (args : list Value) : M World unit :=
  fun w =>
    match user id args (bus w, env w) with
    | (b', e', r) =>
      ({| bus := b'; env := e'; console := console w; calls := calls w |},
       match r with
       | None => Return tt
       | Some error => Throw error
       end)
    end.

(** Calling a subscriber. The wrapper of [once] is
    [(...args) => { callback(...args); this.off(eventName, wrapper); }]. *)
Fixpoint invoke (c : Callback) (args : list Value) : M World unit :=
  log_call c args ;;;
  match c with
  | Fn id => run_user id args
  | OnceWrapper _ eventName callback =>
    invoke callback args ;;;
    modify_bus (off eventName (Some c))
  end.

(** [emit]: the spread copy of the array is taken before the first call. *)
Definition emit (eventName : string) (args : list Value) : M World unit :=
  fun w =>
    match events (bus w) !! eventName with
    | None => (w, Return tt)
    | Some callbacks =>
      for_each
        (fun callback =>
           try_catch (invoke callback args)
                     (fun error => console_error eventName error))
        callbacks w
    end.


(** [emit] called [n] times in a row with the same arguments. *)
Fixpoint emit_times (n : nat) (eventName : string) (args : list Value)
  : M World unit :=
  match n with
  | 0 => ret tt
  | S k => emit eventName args ;;; emit_times k eventName args
  end.

(** How often the function [id] of the application was called. *)
Definition times_called (id : nat) (log : list (Callback * list Value)) : nat :=
  length (filter (fun entry => entry.1 = Fn id) log).

(** *** What one call of a subscriber leaves in the log *)

Lemma log_call_calls c args w :
  calls (log_call c args w).1 = calls w ++ [(c, args)].
Proof. reflexivity. Qed.






Lemma on_pushes_last eventName callback (b : Self) :
  events (on eventName callback b).1 !! eventName
  = Some (default [] (events b !! eventName) ++ [callback]).
Proof.
  unfold on. cbn [fst events].
  destruct (events b !! eventName) as [callbacks |] eqn:Hget.
  - rewrite lookup_insert_eq, Hget. reflexivity.
  - rewrite !lookup_insert_eq. reflexivity.
Qed.


(** *** [once] with a callback that returns *)

Lemma emit_without_subscribers eventName args (w : World) :
  events (bus w) !! eventName = None ->
  emit eventName args w = (w, Return tt).
Proof. intros H. unfold emit. by rewrite H. Qed.

Lemma emit_times_without_subscribers n eventName args (w : World) :
  events (bus w) !! eventName = None ->
  emit_times n eventName args w = (w, Return tt).
Proof.
  intros H. induction n as [| n IH]; [reflexivity |].
  cbn [emit_times]. unfold bind.
  by rewrite emit_without_subscribers.
Qed.

Lemma times_called_app id (l1 l2 : list (Callback * list Value)) :
  times_called id (l1 ++ l2) = times_called id l1 + times_called id l2.
Proof. unfold times_called. by rewrite filter_app, length_app. Qed.

(** When the callback returns normally and leaves the subscriptions alone,
    the wrapper unsubscribes itself in the first dispatch: however often the
    event is emitted afterwards, the callback has run once. *)
Lemma once_fires_once_when_callback_returns
    wid eventName id args n (w : World) :
  events (bus w) !! eventName = None ->
  (forall s, (user id args s).1.1 = s.1 /\ (user id args s).2 = None) ->
  let w1 := {| bus := (once wid eventName (Fn id) (bus w)).1; env := env w;
               console := console w; calls := calls w |} in
  let w2 := (emit_times (S n) eventName args w1).1 in
  times_called id (calls w2) = times_called id (calls w) + 1 /\
  listenerCount eventName (bus w2) = 0.
Proof.
  intros Hfree Huser w1 w2.
  set (wrapper := OnceWrapper wid eventName (Fn id)).
  assert (Hsub : events (bus w1) !! eventName = Some [wrapper]).
  { subst w1. cbn [bus]. unfold once. rewrite on_pushes_last, Hfree.
    reflexivity. }
  assert (Hemit : exists e',
    emit eventName args w1 =
      ({| bus := off eventName (Some wrapper) (bus w1); env := e';
          console := console w;
          calls := calls w ++ [(wrapper, args); (Fn id, args)] |},
       Return tt)).
  { unfold emit. rewrite Hsub. cbn [for_each]. unfold bind at 1.
    unfold try_catch. subst wrapper. cbn [invoke].
    unfold bind, log_call, modify_bus, modify, run_user.
    cbn [bus env console calls].
    match goal with |- context [user id args ?s] =>
      destruct (Huser s) as [Hbus Hret];
      destruct (user id args s) as [[b' e'] r]
    end.
    cbn in Hbus, Hret. subst b' r. exists e'. cbn [ret bus env console calls].
    by rewrite <- app_assoc. }
  destruct Hemit as [e' Hemit].
  assert (Hgone :
    events (off eventName (Some wrapper) (bus w1)) !! eventName = None).
  { unfold off. rewrite Hsub. unfold remove_first. cbn [indexOf].
    rewrite decide_True by reflexivity. cbn. apply lookup_delete_eq. }
  assert (Hrun : w2 =
    {| bus := off eventName (Some wrapper) (bus w1); env := e';
       console := console w;
       calls := calls w ++ [(wrapper, args); (Fn id, args)] |}).
  { subst w2. cbn [emit_times]. unfold bind at 1. rewrite Hemit.
    by rewrite emit_times_without_subscribers. }
  rewrite Hrun. cbn [calls bus]. split.
  - rewrite times_called_app. f_equal. unfold times_called. cbn [filter].
    subst wrapper. cbn. rewrite decide_False by discriminate.
    rewrite decide_True by reflexivity. reflexivity.
  - unfold listenerCount. by rewrite Hgone.
Qed.

(** *** [once] with a callback that throws *)

(** When the callback throws (and leaves the subscriptions alone), the
    wrapper never reaches its [off]: it stays subscribed, and every [emit]
    calls the callback once more. *)
Lemma once_throwing_callback_fires_every_time
    wid eventName id args error n :
  (forall s, (user id args s).1.1 = s.1 /\ (user id args s).2 = Some error) ->
  forall w : World,
    events (bus w) !! eventName
    = Some [OnceWrapper wid eventName (Fn id)] ->
    let w' := (emit_times n eventName args w).1 in
    times_called id (calls w') = times_called id (calls w) + n /\
    events (bus w') !! eventName = Some [OnceWrapper wid eventName (Fn id)].
Proof.
  intros Huser. set (wrapper := OnceWrapper wid eventName (Fn id)).
  induction n as [| n IH]; intros w Hsub; cbn zeta.
  - cbn. split; [lia | exact Hsub].
  - assert (Hemit : exists e',
      emit eventName args w =
        ({| bus := bus w; env := e';
            console := console w ++ [ConsoleError eventName error];
            calls := calls w ++ [(wrapper, args); (Fn id, args)] |},
         Return tt)).
    { unfold emit. rewrite Hsub. cbn [for_each]. unfold bind at 1.
      unfold try_catch. subst wrapper. cbn [invoke].
      unfold bind, log_call, modify_bus, modify, run_user, console_error.
      cbn [bus env console calls].
      match goal with |- context [user id args ?s] =>
        destruct (Huser s) as [Hbus Hthrow];
        destruct (user id args s) as [[b' e'] r]
      end.
      cbn in Hbus, Hthrow. subst b' r. exists e'.
      cbn [ret bus env console calls]. by rewrite <- app_assoc. }
    destruct Hemit as [e' Hemit].
    cbn [emit_times]. unfold bind. rewrite Hemit.
    match goal with |- context [emit_times n eventName args ?w1] =>
      destruct (IH w1 Hsub) as [IHcount IHsub];
      destruct (emit_times n eventName args w1) as [w2 r2]
    end.
    cbn [fst calls bus] in IHcount, IHsub.
    cbn [fst]. split; [| exact IHsub].
    rewrite IHcount, times_called_app. unfold times_called at 2.
    subst wrapper. cbn. rewrite decide_False by discriminate.
    rewrite decide_True by reflexivity. cbn. lia.
Qed.

End Dispatch.

Arguments mkWorld {Env} bus env console calls.
Arguments bus {Env} w.
Arguments env {Env} w.
Arguments console {Env} w.
Arguments calls {Env} w.
Arguments emit {Env} user eventName args w.
Arguments emit_times {Env} user n eventName args w.
Arguments invoke {Env} user c args w.

(** *** Concrete runs *)

Definition with_bus {Env} (f : Self -> Self) (w : World Env) : World Env :=
  mkWorld (f (bus w)) (env w) (console w) (calls w).

Definition fresh_world : World unit := mkWorld new_EventBus tt [] [].

(** An application all of whose functions throw the string ["boom"]. *)
Definition always_throws (id : nat) (args : list Value) (s : Self * unit)
  : Self * unit * option Value :=
  (s.1, s.2, Some (VStr "boom")).

(** An application in which function 1 unsubscribes function 2 from
    ["tick"] and subscribes function 3 to it, function 2 throws, and the
    others do nothing. *)
Definition meddling (id : nat) (args : list Value) (s : Self * unit)
  : Self * unit * option Value :=
  match id with
  | 1 => ((on "tick" (Fn 3) (off "tick" (Some (Fn 2)) s.1)).1, s.2, None)
  | 2 => (s.1, s.2, Some (VStr "boom"))
  | _ => (s.1, s.2, None)
  end.

Definition three_subscribers : World unit :=
  with_bus (fun b => (on "tick" (Fn 4)
                        (on "tick" (Fn 2) (on "tick" (Fn 1) b).1).1).1)
           fresh_world.

(** The dispatch in flight runs the three subscribers it started with, the
    throwing one included; the changes made by function 1 show in the
    subscriber list afterwards. *)
Example emit_ignores_changes_in_flight :
  let r := emit meddling "tick" [VNum 1] three_subscribers in
  r.2 = Return tt /\
  calls r.1 = [(Fn 1, [VNum 1]); (Fn 2, [VNum 1]); (Fn 4, [VNum 1])] /\
  console r.1 = [ConsoleError "tick" (VStr "boom")] /\
  events (bus r.1) !! "tick" = Some [Fn 1; Fn 4; Fn 3].
Proof. vm_compute. repeat split. Qed.

(** C1 (the code departs from the claim). A callback registered with [once]
    that throws is called again by the next [emit]: the wrapper reaches
    [this.off(eventName, wrapper)] only when the callback returns, so after
    two emits the callback has run twice and the wrapper is still
    subscribed. *)
Theorem once_throwing_callback_fires_again :
  let w1 := with_bus (fun b => (once 7 "ready" (Fn 0) b).1) fresh_world in
  let first := (emit always_throws "ready" [] w1).1 in
  let second := (emit always_throws "ready" [] first).1 in
  times_called 0 (calls first) = 1 /\
  times_called 0 (calls second) = 2 /\
  listenerCount "ready" (bus second) = 1.
Proof. vm_compute. repeat split. Qed.

(** *** Subscribing and unsubscribing *)

Import JsFacts.

(** No event is kept with an empty array. *)
Definition tidy (b : Self) : Prop :=
  forall eventName, events b !! eventName <> Some [].

Lemma off_lookup_other eventName other callback (b : Self) :
  other <> eventName ->
  events (off eventName callback b) !! other = events b !! other.
Proof.
  intros Hne. unfold off.
  destruct (events b !! eventName) as [callbacks |]; [| reflexivity].
  destruct callback as [cb |]; [case_bool_decide |]; cbn [events];
    by rewrite ?lookup_delete_ne, ?lookup_insert_ne.
Qed.

Lemma on_lookup_other eventName other callback (b : Self) :
  other <> eventName ->
  events (on eventName callback b).1 !! other = events b !! other.
Proof.
  intros Hne. unfold on. cbn [fst events].
  destruct (events b !! eventName); by rewrite ?lookup_insert_ne.
Qed.

Lemma on_tidy eventName callback (b : Self) :
  tidy b -> tidy (on eventName callback b).1.
Proof.
  intros Htidy name. destruct (decide (name = eventName)) as [-> | Hne].
  - rewrite on_pushes_last. intros [=Hnil]. by destruct (default _ _).
  - rewrite on_lookup_other by exact Hne. apply Htidy.
Qed.

(** The bus never keeps an event without subscribers: [on], [once], [off]
    and [clear] take a bus without empty arrays to one without, so that an
    event has no listener exactly when the map has no entry for it. *)
Theorem subscriptions_stay_tidy eventName callback wid (b : Self) :
  tidy b ->
  tidy (on eventName callback b).1 /\
  tidy (once wid eventName callback b).1 /\
  (forall cb, tidy (off eventName cb b)) /\
  tidy (clear b) /\
  (listenerCount eventName b = 0 <-> events b !! eventName = None).
Proof.
  intros Htidy.
  split; [by apply on_tidy |]. split; [by apply on_tidy |].
  split; [| split].
  - intros cb name. destruct (decide (name = eventName)) as [-> | Hne].
    + unfold off. destruct (events b !! eventName) as [callbacks |] eqn:Hget;
        [| by rewrite Hget].
      destruct cb as [cb |]; [case_bool_decide as Hlen |]; cbn [events].
      * by rewrite lookup_delete_eq.
      * rewrite lookup_insert_eq. intros [=Hnil]. by rewrite Hnil in Hlen.
      * by rewrite lookup_delete_eq.
    + rewrite off_lookup_other by exact Hne. apply Htidy.
  - intros name. cbn. by rewrite lookup_empty.
  - unfold listenerCount. specialize (Htidy eventName).
    destruct (events b !! eventName) as [[| c rest] |]; split; try done.
Qed.

Lemma on_returns_unsubscribe eventName callback (b : Self) :
  (on eventName callback b).2
  = {| un_eventName := eventName; un_callback := callback |}.
Proof. reflexivity. Qed.

Lemma on_keeps_onceEvents eventName callback (b : Self) :
  onceEvents (on eventName callback b).1 = onceEvents b.
Proof. reflexivity. Qed.

Lemma Bus_ext (b1 b2 : Self) :
  (forall name, events b1 !! name = events b2 !! name) ->
  onceEvents b1 = onceEvents b2 ->
  b1 = b2.
Proof.
  destruct b1, b2. cbn. intros Hevents ->. f_equal. by apply map_eq.
Qed.

(** Calling the function returned by [on] takes the subscription back: when
    the callback was not subscribed to the event before, the bus is exactly
    what it was. *)
Theorem unsubscribe_undoes_on eventName callback (b : Self) :
  tidy b ->
  callback ∉ default [] (events b !! eventName) ->
  call_unsubscribe (on eventName callback b).2 (on eventName callback b).1 = b.
Proof.
  intros Htidy Hfresh. rewrite on_returns_unsubscribe.
  unfold call_unsubscribe, off. cbn [un_eventName un_callback].
  rewrite on_pushes_last, on_keeps_onceEvents.
  rewrite remove_first_pushed by exact Hfresh.
  specialize (Htidy eventName).
  destruct (events b !! eventName) as [[| c rest] |] eqn:Hget; [done | |];
    cbn [default length].
  - rewrite bool_decide_false by done. apply Bus_ext; [| reflexivity].
    intros name. cbn [events]. destruct (decide (name = eventName)) as [-> | Hne].
    + by rewrite lookup_insert_eq.
    + rewrite lookup_insert_ne by done. by apply on_lookup_other.
  - rewrite bool_decide_true by done. apply Bus_ext; [| reflexivity].
    intros name. cbn [events]. destruct (decide (name = eventName)) as [-> | Hne].
    + by rewrite lookup_delete_eq.
    + rewrite lookup_delete_ne by done. by apply on_lookup_other.
Qed.

(** When the same callback is subscribed to an event twice, the function
    returned by the second [on] removes the first registration: the callback
    stays subscribed, now at the end of the order. *)
Theorem unsubscribe_removes_earliest_registration
    eventName callback (b : Self) callbacks :
  events b !! eventName = Some callbacks ->
  callback ∈ callbacks ->
  events (call_unsubscribe (on eventName callback b).2
                           (on eventName callback b).1) !! eventName
  = Some (remove_first callbacks callback ++ [callback]).
Proof.
  intros Hget Hin. rewrite on_returns_unsubscribe.
  unfold call_unsubscribe, off. cbn [un_eventName un_callback].
  rewrite on_pushes_last, Hget. cbn [default].
  rewrite remove_first_app by exact Hin.
  rewrite bool_decide_false by (rewrite length_app; cbn; lia).
  cbn [events]. by rewrite lookup_insert_eq.
Qed.

(** [listenerCount] follows the registrations: [on] adds one, [off] of a
    subscribed callback takes one away, and [off] of a callback that is not
    subscribed changes nothing. *)
Theorem listenerCount_follows_on_off eventName callback (b : Self) :
  listenerCount eventName (on eventName callback b).1
  = S (listenerCount eventName b) /\
  (callback ∈ default [] (events b !! eventName) ->
   S (listenerCount eventName (off eventName (Some callback) b))
   = listenerCount eventName b) /\
  (tidy b -> callback ∉ default [] (events b !! eventName) ->
   off eventName (Some callback) b = b).
Proof.
  split; [| split].
  - unfold listenerCount. rewrite on_pushes_last.
    destruct (events b !! eventName); cbn; rewrite ?length_app; cbn; lia.
  - intros Hin. unfold listenerCount, off.
    destruct (events b !! eventName) as [callbacks |] eqn:Hget;
      [| by apply elem_of_nil in Hin].
    cbn in Hin. pose proof (remove_first_length _ _ Hin) as Hlen.
    case_bool_decide as Hempty; cbn [events].
    + rewrite lookup_delete_eq. lia.
    + by rewrite lookup_insert_eq.
  - intros Htidy Hout. unfold off. specialize (Htidy eventName).
    destruct (events b !! eventName) as [callbacks |] eqn:Hget;
      [| reflexivity].
    cbn in Hout. rewrite remove_first_absent by exact Hout.
    destruct callbacks as [| c rest]; [done |].
    rewrite bool_decide_false by done. destruct b as [evs onceEvs].
    cbn [events onceEvents] in *. f_equal. by apply insert_id.
Qed.

Section Silence.

Variable Env : Type.
Variable user : nat -> list Value -> Self * Env -> Self * Env * option Value.

(** [off(eventName)] without a callback removes every subscriber of the
    event and none of another: a following [emit] of the event calls nobody
    and changes nothing. *)
Theorem off_all_silences_event eventName args (w : World Env) :
  let w' := with_bus (off eventName None) w in
  emit user eventName args w' = (w', Return tt) /\
  listenerCount eventName (bus w') = 0 /\
  forall other,
    other <> eventName -> events (bus w') !! other = events (bus w) !! other.
Proof.
  intros w'.
  assert (Hgone : events (bus w') !! eventName = None).
  { subst w'. cbn [with_bus bus]. unfold off.
    destruct (events (bus w) !! eventName) eqn:Hget; [| exact Hget].
    cbn [events]. apply lookup_delete_eq. }
  split; [by apply emit_without_subscribers |]. split.
  - unfold listenerCount. by rewrite Hgone.
  - intros other Hne. subst w'. cbn [with_bus bus].
    by apply off_lookup_other.
Qed.

End Silence.

(** An application whose functions return at once. *)
Definition well_behaved (id : nat) (args : list Value) (s : Self * unit)
  : Self * unit * option Value :=
  (s.1, s.2, None).

Lemma new_EventBus_tidy : tidy new_EventBus.
Proof. intros name. cbn. by rewrite lookup_empty. Defined.

Lemma three_subscribers_tidy : tidy (bus three_subscribers).
Proof. do 3 apply on_tidy. exact new_EventBus_tidy. Qed.

(** On a bus without subscribers. *)
Lemma subscriptions_stay_tidy_witness :
  tidy new_EventBus /\ tidy (on "tick" (Fn 1) new_EventBus).1.
Proof.
  split; [exact new_EventBus_tidy |].
  exact (proj1 (subscriptions_stay_tidy "tick" (Fn 1) 0 new_EventBus
                  new_EventBus_tidy)).
Defined.

(** On the bus of [three_subscribers], for a callback that is new to
    ["tick"]. *)
Lemma unsubscribe_undoes_on_witness :
  (Fn 9 ∉ default [] (events (bus three_subscribers) !! "tick")) /\
  call_unsubscribe (on "tick" (Fn 9) (bus three_subscribers)).2
                   (on "tick" (Fn 9) (bus three_subscribers)).1
  = bus three_subscribers.
Proof.
  assert (Hfresh : Fn 9 ∉ default [] (events (bus three_subscribers) !! "tick")).
  { intros Hin. vm_compute in Hin.
    repeat match goal with
           | H : list_elem_of _ _ |- _ => inversion H; subst; clear H
           | H : _ ∈ _ |- _ => inversion H; subst; clear H
           end. }
  split; [exact Hfresh |].
  exact (unsubscribe_undoes_on "tick" (Fn 9) (bus three_subscribers)
           three_subscribers_tidy Hfresh).
Defined.

(** On the bus of [three_subscribers], for function 1, which is subscribed
    first: afterwards it is last. *)
Lemma unsubscribe_removes_earliest_registration_witness :
  events (bus three_subscribers) !! "tick" = Some [Fn 1; Fn 2; Fn 4] /\
  events (call_unsubscribe (on "tick" (Fn 1) (bus three_subscribers)).2
                           (on "tick" (Fn 1) (bus three_subscribers)).1)
    !! "tick"
  = Some [Fn 2; Fn 4; Fn 1].
Proof.
  split; [reflexivity |].
  exact (unsubscribe_removes_earliest_registration "tick" (Fn 1)
           (bus three_subscribers) [Fn 1; Fn 2; Fn 4] eq_refl
           ltac:(by left)).
Defined.

(** On the bus of [three_subscribers]. *)
Lemma listenerCount_follows_on_off_witness :
  (Fn 2 ∈ default [] (events (bus three_subscribers) !! "tick")) /\
  S (listenerCount "tick" (off "tick" (Some (Fn 2)) (bus three_subscribers)))
  = listenerCount "tick" (bus three_subscribers).
Proof.
  assert (Hin : Fn 2 ∈ default [] (events (bus three_subscribers) !! "tick")).
  { change (Fn 2 ∈ [Fn 1; Fn 2; Fn 4]). right. left. }
  split; [exact Hin |].
  exact (proj1 (proj2 (listenerCount_follows_on_off "tick" (Fn 2)
                         (bus three_subscribers))) Hin).
Defined.

(** Three emits after [once] on an empty bus, with a callback that
    returns. *)
Lemma once_fires_once_when_callback_returns_witness :
  events (bus fresh_world) !! "ready" = None /\
  (forall s, (well_behaved 0 [] s).1.1 = s.1 /\ (well_behaved 0 [] s).2 = None) /\
  times_called 0
    (calls (emit_times well_behaved 3 "ready" []
              (with_bus (fun b => (once 7 "ready" (Fn 0) b).1)
                        fresh_world)).1)
  = 1.
Proof.
  split; [reflexivity |]. split; [by intros s |].
  exact (proj1 (once_fires_once_when_callback_returns unit well_behaved 7
                  "ready" 0 [] 2 fresh_world eq_refl
                  (fun s => conj eq_refl eq_refl))).
Defined.

End EventBus.

(** ** StateManager *)

Module StateManager.
Import Js.

(** The object handed to [addHistory]. The [set] trap builds it without an
    [action] member, the [deleteProperty] trap with [action: 'delete']. *)
Record HistoryRecord : Type := mkHistoryRecord {
  property : string;
  oldValue : Value;
  newValue : Value;
  timestamp : float;
  action : option string
}.

(** The fields of a [StateManager]. [state] and [prototype] together are
    the target of the proxy: [state] holds its own members (writable data
    properties: a key assigned [undefined] is present), [prototype] is the
    object it inherits from, [None] being [null]. The proxy has no [get]
    trap, so a name that is no own member is looked up on the chain of
    prototypes, in the traps and in [get] alike. Watchers are functions,
    known by their identity. *)
Record Self : Type := mkSelf {
  state : gmap string Value;
  prototype : option nat;
  listeners : gmap string (list nat);
  history : list HistoryRecord;
  maxHistorySize : nat
}.

(** [new StateManager(initialState)] for an object literal, as the
    application builds its store: the target inherits from
    [Object.prototype]. *)
Definition new_StateManager (initialState : gmap string Value) : Self :=
  {| state := initialState; prototype := Some Object_prototype;
     listeners := ∅; history := []; maxHistorySize := 50 |}.

Definition TypeError : Value := VStr "TypeError".

(** [addHistory]: push, then drop the head when the array has grown past
    [maxHistorySize]. *)
Definition addHistory (record : HistoryRecord) (s : Self) : Self :=
  let pushed := history s ++ [record] in
  {| state := state s; prototype := prototype s; listeners := listeners s;
     history := if bool_decide (maxHistorySize s < length pushed)
                then tail pushed else pushed;
     maxHistorySize := maxHistorySize s |}.

(** Writing an own member of the target, and [delete target[property]],
    which concerns own members only. *)
Definition put (property : string) (value : Value) (s : Self) : Self :=
  {| state := <[property := value]> (state s); prototype := prototype s;
     listeners := listeners s; history := history s;
     maxHistorySize := maxHistorySize s |}.

Definition remove (property : string) (s : Self) : Self :=
  {| state := delete property (state s); prototype := prototype s;
     listeners := listeners s; history := history s;
     maxHistorySize := maxHistorySize s |}.

(** What the setter of [__proto__] does to the target when it succeeds. *)
Definition inherit_from (parent : option nat) (s : Self) : Self :=
  {| state := state s; prototype := parent; listeners := listeners s;
     history := history s; maxHistorySize := maxHistorySize s |}.

Definition watch (key : string) (callback : nat) (s : Self) : Self :=
  let ls :=
    match listeners s !! key with
    | None => <[key := []]> (listeners s)
    | Some _ => listeners s
    end in
  {| state := state s; prototype := prototype s;
     listeners := <[key := default [] (ls !! key) ++ [callback]]> ls;
     history := history s; maxHistorySize := maxHistorySize s |}.

Definition unwatch (key : string) (callback : nat) (s : Self) : Self :=
  match listeners s !! key with
  | None => s
  | Some callbacks =>
    let callbacks' := remove_first callbacks callback in
    {| state := state s; prototype := prototype s;
       listeners := if bool_decide (length callbacks' = 0)
                    then delete key (listeners s)
                    else <[key := callbacks']> (listeners s);
       history := history s; maxHistorySize := maxHistorySize s |}
  end.

(** [history.slice(-limit)]; [slice(-0)] is the whole array. *)
Definition getHistory (limit : nat) (s : Self) : list HistoryRecord :=
  if bool_decide (limit = 0) then history s
  else drop (length (history s) - limit) (history s).

Definition clearHistory (s : Self) : Self :=
  {| state := state s; prototype := prototype s; listeners := listeners s;
     history := []; maxHistorySize := maxHistorySize s |}.

Definition clearListeners (s : Self) : Self :=
  {| state := state s; prototype := prototype s; listeners := ∅;
     history := history s; maxHistorySize := maxHistorySize s |}.

Inductive LogEntry : Type :=
| ConsoleError (key : string) (error : Value).

(** The first argument of [set]: a key, or an object whose own members are
    assigned one after the other ([Object.assign(this.state, key)]). *)
Inductive KeyArg : Type :=
| Key (key : string)
| Members (entries : list (string * Value)).

(** The last [n] elements of an array. *)
Definition keep_last {A} (n : nat) (l : list A) : list A :=
  drop (length l - n) l.

(** No key is kept with an empty array of watchers. *)
Definition tidy (s : Self) : Prop :=
  forall key, listeners s !! key <> Some [].

Section Store.

(** The rest of the heap, as far as the watchers can reach it. *)
Variable Env : Type.

(** What the watcher [id] does when called with [(newValue, oldValue)]: any
    change of the store (it may call [set], [watch], [unwatch],
    [clearHistory] ...) and of the rest of the heap, and then a normal
    return ([None]) or a thrown value. *)
Variable watcher :
  nat -> Value -> Value -> Self * Env -> Self * Env * option Value.

(** What the heap shows of the other objects. [chain e addr name] is what
    the lookup of [name] finds when it starts at the object [addr] and
    climbs its prototypes; [above_target e addr] tells whether the target of
    the proxy is [addr] or one of its prototypes. *)
Variable chain : Env -> nat -> string -> Slot.
Variable above_target : Env -> nat -> bool.

Record World : Type := mkWorld {
  sm : Self;
  env : Env;
  console : list LogEntry;
  (** every call of a watcher made by the store, with its arguments *)
  notified : list (nat * Value * Value)
}.

Definition modify_sm (f : Self -> Self) : M World unit :=
  modify (fun w =>
    {| sm := f (sm w); env := env w; console := console w;
       notified := notified w |}).

Definition console_error (key : string) (error : Value) : M World unit :=
  modify (fun w =>
    {| sm := sm w; env := env w;
       console := console w ++ [ConsoleError key error];
       notified := notified w |}).

(** What the prototypes of the target hold under a name. *)
Definition lookup_chain (s : Self) (e : Env) (property : string) : Slot :=
  match prototype s with
  | None => Missing
  | Some addr => chain e addr property
  end.

(** The value of a name that the target does not hold itself; the getter
    of [__proto__] returns the prototype of the target. *)
Definition inherited (s : Self) (e : Env) (property : string) : Value :=
  match lookup_chain s e property with
  | Missing => VUndefined
  | Member value => value
  | ProtoAccessor => from_option VRef VNull (prototype s)
  end.

(** [target[property]] *)
Definition read (s : Self) (e : Env) (property : string) : Value :=
  match state s !! property with
  | Some value => value
  | None => inherited s e property
  end.

(** [get(key)] *)
Definition get (key : string) (w : World) : Value := read (sm w) (env w) key.

(** Whether [target[property] = value] ends in the setter of [__proto__]
    instead of writing a member: the target has no such member and the
    chain answers with the accessor. *)
Definition lands_on_setter (s : Self) (e : Env) (property : string) : bool :=
  match state s !! property, lookup_chain s e property with
  | None, ProtoAccessor => true
  | _, _ => false
  end.

(** The setter of [__proto__], called on the target: a primitive is
    ignored, [null] and objects become the prototype, unless that would
    close a cycle, which is a [TypeError]. *)
Definition proto_setter (value : Value) : M World unit :=
  fun w =>
    match value with
    | VNull => modify_sm (inherit_from None) w
    | VRef addr =>
      if bool_decide (prototype (sm w) = Some addr) then (w, Return tt)
      else if above_target (env w) addr then (w, Throw TypeError)
      else modify_sm (inherit_from (Some addr)) w
    | _ => (w, Return tt)
    end.

(** [target[property] = value] *)
Definition assign (property : string) (value : Value) : M World unit :=
  fun w =>
    if lands_on_setter (sm w) (env w) property then proto_setter value w
    else modify_sm (put property value) w.

Definition call_watcher (callback : nat) (newValue oldValue : Value)
  : M World unit :=
  fun w =>
    match watcher callback newValue oldValue (sm w, env w) with
    | (s', e', r) =>
      ({| sm := s'; env := e'; console := console w;
          notified := notified w ++ [(callback, newValue, oldValue)] |},
       match r with
       | None => Return tt
       | Some error => Throw error
       end)
    end.

(** [notify]: a copy of the array of the key is walked, each call in its own
    [try]/[catch]. *)
Definition notify (key : string) (newValue oldValue : Value) : M World unit :=
  fun w =>
    match listeners (sm w) !! key with
    | None => (w, Return tt)
    | Some callbacks =>
      for_each
        (fun callback =>
           try_catch (call_watcher callback newValue oldValue)
                     (fun error => console_error key error))
        callbacks w
    end.

(** The [set] trap of the proxy; [now] is what [Date.now()] returns. *)
Definition set_trap (now : float) (property : string) (value : Value)
  : M World bool :=
  fun w =>
    let oldValue := read (sm w) (env w) property in
    if strict_eq oldValue value then (w, Return true)
    else
      (modify_sm (addHistory {| property := property; oldValue := oldValue;
                                newValue := value; timestamp := now;
                                action := None |}) ;;;
       assign property value ;;;
       notify property value oldValue ;;;
       ret true) w.

(** The [deleteProperty] trap of the proxy. *)
Definition deleteProperty_trap (now : float) (property : string)
  : M World bool :=
  fun w =>
    let oldValue := read (sm w) (env w) property in
    (modify_sm (addHistory {| property := property; oldValue := oldValue;
                              newValue := VUndefined; timestamp := now;
                              action := Some "delete" |}) ;;;
     modify_sm (remove property) ;;;
     notify property VUndefined oldValue ;;;
     ret true) w.

(** [set(key, value)] *)
Definition set (now : float) (key : KeyArg) (value : Value) : M World unit :=
  match key with
  | Members entries =>
    for_each (fun entry => set_trap now entry.1 entry.2 ;;; ret tt) entries
  | Key k => set_trap now k value ;;; ret tt
  end.

(** A mutation of the store as the application performs it: [set(key,
    value)] or [delete state[key]]. *)
Inductive Mutation : Type :=
| SetKey (now : float) (key : string) (value : Value)
| DeleteKey (now : float) (key : string).

Definition mutate (m : Mutation) : M World unit :=
  match m with
  | SetKey now key value => set now (Key key) value
  | DeleteKey now key => deleteProperty_trap now key ;;; ret tt
  end.

Definition mutations (ms : list Mutation) : M World unit := for_each mutate ms.


(** The bound that the constructor sets up. *)
Definition within_capacity (s : Self) : Prop :=
  maxHistorySize s = 50 /\ length (history s) <= 50.

(** The record that the [deleteProperty] trap writes for a key. *)
Definition deletion (now : float) (w : World) (key : string) : HistoryRecord :=
  {| property := key; oldValue := get key w; newValue := VUndefined;
     timestamp := now; action := Some "delete" |}.

(** [keys.forEach(key => { delete this.state[key]; })], [keys] being what
    [Object.keys(this.state)] returned. *)
Definition delete_keys (now : float) (keys : list string) : M World unit :=
  for_each (fun key => deleteProperty_trap now key ;;; ret tt) keys.

(** [Object.assign(this.state, newState)]: the members of [newState] go
    through the [set] trap one after the other. *)
Definition assign_members (now : float) (newState : list (string * Value))
  : M World unit :=
  for_each (fun entry => set_trap now entry.1 entry.2 ;;; ret tt) newState.

(** [reset(newState)]; [keys] is what [Object.keys(this.state)] returns. *)
Definition reset (now : float) (keys : list string)
  (newState : list (string * Value)) : M World unit :=
  delete_keys now keys ;;;
  assign_members now newState ;;;
  modify_sm clearHistory.

(** [destroy()]; [keys] is what [Object.keys(this.state)] returns. *)
Definition destroy (now : float) (keys : list string) : M World unit :=
  modify_sm clearListeners ;;;
  modify_sm clearHistory ;;;
  delete_keys now keys.

(** *** [notify] *)

Lemma guarded_watcher_returns key callback newValue oldValue w :
  (try_catch (call_watcher callback newValue oldValue)
             (fun error => console_error key error) w).2 = Return tt.
Proof.
  unfold try_catch, call_watcher.
  by destruct (watcher callback newValue oldValue (sm w, env w))
    as [[s' e'] [error |]].
Qed.

Lemma guarded_watcher_notified key callback newValue oldValue w :
  notified (try_catch (call_watcher callback newValue oldValue)
                      (fun error => console_error key error) w).1
  = notified w ++ [(callback, newValue, oldValue)].
Proof.
  unfold try_catch, call_watcher.
  by destruct (watcher callback newValue oldValue (sm w, env w))
    as [[s' e'] [error |]].
Qed.

Lemma guarded_watcher_sm key callback newValue oldValue w :
  sm (try_catch (call_watcher callback newValue oldValue)
                (fun error => console_error key error) w).1
  = (watcher callback newValue oldValue (sm w, env w)).1.1.
Proof.
  unfold try_catch, call_watcher.
  by destruct (watcher callback newValue oldValue (sm w, env w))
    as [[s' e'] [error |]].
Qed.

Lemma walk_watchers key newValue oldValue (callbacks : list nat) :
  forall w,
    let r := for_each
               (fun callback =>
                  try_catch (call_watcher callback newValue oldValue)
                            (fun error => console_error key error))
               callbacks w in
    r.2 = Return tt /\
    notified r.1
    = notified w ++ map (fun callback => (callback, newValue, oldValue))
                        callbacks.
Proof.
  induction callbacks as [| c rest IH]; intros w; cbn [for_each map].
  - split; [reflexivity | by rewrite app_nil_r].
  - unfold bind.
    pose proof (guarded_watcher_returns key c newValue oldValue w) as Hret.
    pose proof (guarded_watcher_notified key c newValue oldValue w) as Hlog.
    destruct (try_catch _ _ w) as [w1 r1]. cbn in Hret, Hlog. subst r1.
    destruct (IH w1) as [IHret IHlog]. split; [exact IHret |].
    rewrite IHlog, Hlog. by rewrite <- app_assoc.
Qed.

Lemma notify_returns key newValue oldValue w :
  (notify key newValue oldValue w).2 = Return tt.
Proof.
  unfold notify. destruct (listeners (sm w) !! key) as [callbacks |].
  - apply walk_watchers.
  - reflexivity.
Qed.


Lemma notify_without_watchers key newValue oldValue w :
  listeners (sm w) !! key = None ->
  notify key newValue oldValue w = (w, Return tt).
Proof. intros H. unfold notify. by rewrite H. Qed.





(** *** Reading and writing the target *)


Lemma read_put_eq (s : Self) e key value :
  read (put key value s) e key = value.
Proof. unfold read. cbn [put state]. by rewrite lookup_insert_eq. Qed.

Lemma read_put_ne (s : Self) e key other value :
  other <> key -> read (put key value s) e other = read s e other.
Proof.
  intros Hne. unfold read. cbn [put state].
  by rewrite lookup_insert_ne.
Qed.

Lemma read_remove_ne (s : Self) e key other :
  other <> key -> read (remove key s) e other = read s e other.
Proof.
  intros Hne. unfold read. cbn [remove state].
  by rewrite lookup_delete_ne.
Qed.

Lemma read_clearHistory (s : Self) e key :
  read (clearHistory s) e key = read s e key.
Proof. reflexivity. Qed.

(** The name under which the setter is found reads as the prototype, an
    object. *)
Lemma setter_reads_prototype (s : Self) e key :
  lands_on_setter s e key = true ->
  exists addr, prototype s = Some addr /\ read s e key = VRef addr.
Proof.
  unfold lands_on_setter, read, inherited, lookup_chain.
  destruct (state s !! key); [discriminate |].
  destruct (prototype s) as [addr |]; [| discriminate].
  destruct (chain e addr key); try discriminate.
  intros _. by exists addr.
Qed.

Lemma undefined_is_no_setter (s : Self) e key :
  read s e key = VUndefined -> lands_on_setter s e key = false.
Proof.
  intros Hread. destruct (lands_on_setter s e key) eqn:Hsetter; [| reflexivity].
  apply setter_reads_prototype in Hsetter as (addr & _ & Hobject).
  congruence.
Qed.


Lemma assign_put property value w :
  lands_on_setter (sm w) (env w) property = false ->
  assign property value w
  = ({| sm := put property value (sm w); env := env w; console := console w;
        notified := notified w |}, Return tt).
Proof. intros H. unfold assign. by rewrite H. Qed.

(** However the assignment ends, the rest of the manager is as before. *)
Lemma assign_frame property value w :
  history (sm (assign property value w).1) = history (sm w) /\
  maxHistorySize (sm (assign property value w).1) = maxHistorySize (sm w) /\
  listeners (sm (assign property value w).1) = listeners (sm w) /\
  notified (assign property value w).1 = notified w.
Proof.
  unfold assign, proto_setter.
  destruct (lands_on_setter (sm w) (env w) property); [| done].
  destruct value as [| | b | x | text | addr]; try done.
  destruct (bool_decide (prototype (sm w) = Some addr)); [done |].
  by destruct (above_target (env w) addr).
Qed.

(** An assignment fails only when an object that has the target among its
    prototypes is to become the prototype of the target. *)
Lemma assign_returns property value w :
  (forall addr, value = VRef addr -> above_target (env w) addr = false) ->
  (assign property value w).2 = Return tt.
Proof.
  intros Hsafe. unfold assign, proto_setter.
  destruct (lands_on_setter (sm w) (env w) property); [| done].
  destruct value as [| | b | x | text | addr]; try done.
  destruct (bool_decide (prototype (sm w) = Some addr)); [done |].
  by rewrite Hsafe.
Qed.

(** *** The two traps, step by step *)

Lemma set_trap_unchanged now property value w :
  strict_eq (read (sm w) (env w) property) value = true ->
  set_trap now property value w = (w, Return true).
Proof. intros H. unfold set_trap. by rewrite H. Qed.

Lemma set_trap_changed now property value w :
  strict_eq (read (sm w) (env w) property) value = false ->
  let oldValue := read (sm w) (env w) property in
  let recorded :=
    {| sm := addHistory {| property := property; oldValue := oldValue;
                           newValue := value; timestamp := now;
                           action := None |} (sm w);
       env := env w; console := console w; notified := notified w |} in
  set_trap now property value w
  = match assign property value recorded with
    | (w1, Return _) => ((notify property value oldValue w1).1, Return true)
    | (w1, Throw error) => (w1, Throw error)
    end.
Proof.
  intros H oldValue recorded. unfold set_trap. rewrite H.
  unfold bind at 1. cbn [modify_sm modify]. unfold bind at 1.
  fold oldValue. fold recorded.
  destruct (assign property value recorded) as [w1 [[] | error]];
    [| reflexivity].
  unfold bind.
  pose proof (notify_returns property value oldValue w1) as Hret.
  destruct (notify property value oldValue w1) as [w2 r]. cbn in Hret.
  by subst r.
Qed.

Lemma set_trap_stores now property value w :
  strict_eq (read (sm w) (env w) property) value = false ->
  lands_on_setter (sm w) (env w) property = false ->
  let oldValue := read (sm w) (env w) property in
  let recorded :=
    addHistory {| property := property; oldValue := oldValue;
                  newValue := value; timestamp := now; action := None |}
               (sm w) in
  let w1 := {| sm := put property value recorded; env := env w;
               console := console w; notified := notified w |} in
  set_trap now property value w
  = ((notify property value oldValue w1).1, Return true).
Proof.
  intros H Hmember oldValue recorded w1.
  rewrite set_trap_changed by exact H. cbn zeta.
  rewrite assign_put by exact Hmember. reflexivity.
Qed.

Lemma deleteProperty_trap_steps now property w :
  let oldValue := read (sm w) (env w) property in
  let recorded :=
    addHistory {| property := property; oldValue := oldValue;
                  newValue := VUndefined; timestamp := now;
                  action := Some "delete" |}
               (sm w) in
  let w1 := {| sm := remove property recorded; env := env w;
               console := console w; notified := notified w |} in
  deleteProperty_trap now property w
  = ((notify property VUndefined oldValue w1).1, Return true).
Proof.
  intros oldValue recorded w1. unfold deleteProperty_trap.
  unfold bind at 1. cbn [modify_sm modify]. unfold bind at 1.
  cbn [modify_sm modify sm env console notified]. unfold bind at 1.
  fold oldValue. fold recorded. fold w1.
  pose proof (notify_returns property VUndefined oldValue w1) as Hret.
  destruct (notify property VUndefined oldValue w1) as [w2 r]. cbn in Hret.
  by subst r.
Qed.

Lemma set_trap_returns now property value w :
  (forall e addr, value = VRef addr -> above_target e addr = false) ->
  (set_trap now property value w).2 = Return true.
Proof.
  intros Hsafe.
  destruct (strict_eq (read (sm w) (env w) property) value) eqn:Heq.
  - by rewrite set_trap_unchanged.
  - rewrite set_trap_changed by exact Heq. cbn zeta.
    match goal with |- context [assign property value ?w0] =>
      pose proof (assign_returns property value w0
                    (fun addr H => Hsafe _ addr H)) as Hret;
      destruct (assign property value w0) as [w1 r]
    end.
    cbn in Hret. by subst r.
Qed.

Lemma set_trap_member_returns now property value w :
  lands_on_setter (sm w) (env w) property = false ->
  (set_trap now property value w).2 = Return true.
Proof.
  intros Hmember.
  destruct (strict_eq (read (sm w) (env w) property) value) eqn:Heq.
  - by rewrite set_trap_unchanged.
  - by rewrite set_trap_stores.
Qed.

Lemma set_key_run now key value w :
  lands_on_setter (sm w) (env w) key = false ->
  set now (Key key) value w = ((set_trap now key value w).1, Return tt).
Proof.
  intros Hmember. cbn [set]. unfold bind.
  pose proof (set_trap_member_returns now key value w Hmember) as Hret.
  destruct (set_trap now key value w) as [w1 r]. cbn in Hret. by subst r.
Qed.

(** *** Setting the value a key already has *)

(** C4. When the value that the store holds at [key] (what [get(key)]
    returns, which is also what the trap reads as the old value) is strictly
    equal to [value], [set(key, value)] changes nothing at all: the stored
    value, the history, the watchers' call log and the console are those of
    before. Doing it twice in a row therefore adds no history record and no
    notification, in particular not more than one of each. *)
Theorem set_strictly_equal_is_noop now now' key value (w : World) :
  strict_eq (get key w) value = true ->
  let first := set now (Key key) value w in
  let twice := (set now (Key key) value ;;; set now' (Key key) value) w in
  first = (w, Return tt) /\
  twice = (w, Return tt) /\
  length (history (sm twice.1)) <= length (history (sm w)) + 1 /\
  length (notified twice.1) <= length (notified w) + 1.
Proof.
  intros Heq first twice.
  assert (Hone : forall t, set t (Key key) value w = (w, Return tt)).
  { intros t. cbn [set]. unfold bind.
    by rewrite set_trap_unchanged. }
  assert (Htwice : twice = (w, Return tt)).
  { subst twice. unfold bind at 1. rewrite Hone. apply Hone. }
  subst first. rewrite Htwice, Hone. cbn [fst].
  repeat split; lia.
Qed.



(** *** Deleting a key *)




(** *** The bound on the history *)

Lemma new_StateManager_within_capacity initialState :
  within_capacity (new_StateManager initialState).
Proof. split; [reflexivity | cbn; lia]. Qed.

Lemma addHistory_within_capacity record (s : Self) :
  within_capacity s -> within_capacity (addHistory record s).
Proof.
  intros [Hmax Hlen]. split; [exact Hmax |].
  unfold addHistory. cbn [history]. rewrite Hmax.
  case_bool_decide as Hfull.
  - rewrite length_app in Hfull. cbn in Hfull.
    destruct (history s); cbn in *; [lia |]. rewrite length_app. cbn. lia.
  - lia.
Qed.

Lemma addHistory_evicts_oldest record (s : Self) :
  maxHistorySize s = 50 ->
  length (history s) = 50 ->
  history (addHistory record s) = tail (history s) ++ [record].
Proof.
  intros Hmax Hlen. unfold addHistory. cbn [history].
  rewrite bool_decide_true by (rewrite length_app; cbn; lia).
  destruct (history s); [discriminate | reflexivity].
Qed.

Section Capacity.

(** Watchers act through the store's own methods, which keep the bound. *)
Hypothesis watchers_keep_capacity :
  forall callback newValue oldValue s e,
    within_capacity s ->
    within_capacity (watcher callback newValue oldValue (s, e)).1.1.

Lemma walk_watchers_within_capacity key newValue oldValue callbacks :
  forall w,
    within_capacity (sm w) ->
    within_capacity
      (sm (for_each
             (fun callback =>
                try_catch (call_watcher callback newValue oldValue)
                          (fun error => console_error key error))
             callbacks w).1).
Proof.
  induction callbacks as [| c rest IH]; intros w Hw; cbn [for_each].
  - exact Hw.
  - unfold bind.
    pose proof (guarded_watcher_returns key c newValue oldValue w) as Hret.
    pose proof (guarded_watcher_sm key c newValue oldValue w) as Hsm.
    destruct (try_catch _ _ w) as [w1 r1]. cbn in Hret, Hsm. subst r1.
    apply IH. rewrite Hsm. by apply watchers_keep_capacity.
Qed.

Lemma notify_within_capacity key newValue oldValue w :
  within_capacity (sm w) ->
  within_capacity (sm (notify key newValue oldValue w).1).
Proof.
  intros Hw. unfold notify.
  destruct (listeners (sm w) !! key) as [callbacks |]; [| exact Hw].
  by apply walk_watchers_within_capacity.
Qed.

Lemma set_trap_within_capacity now key value w :
  within_capacity (sm w) ->
  within_capacity (sm (set_trap now key value w).1).
Proof.
  intros Hw.
  destruct (strict_eq (read (sm w) (env w) key) value) eqn:Heq.
  - by rewrite set_trap_unchanged.
  - rewrite set_trap_changed by exact Heq. cbn zeta.
    match goal with |- context [assign key value ?w0] =>
      pose proof (assign_frame key value w0) as (Hh & Hm & _);
      assert (Hw1 : within_capacity (sm (assign key value w0).1))
        by (split; [rewrite Hm | rewrite Hh];
            apply (addHistory_within_capacity _ (sm w) Hw));
      destruct (assign key value w0) as [w1 [[] | error]]
    end.
    + cbn [fst]. by apply notify_within_capacity.
    + exact Hw1.
Qed.

Lemma mutate_within_capacity m w :
  within_capacity (sm w) ->
  within_capacity (sm (mutate m w).1).
Proof.
  intros Hw. destruct m as [now key value | now key]; cbn [mutate set].
  - unfold bind.
    pose proof (set_trap_within_capacity now key value w Hw) as Hw1.
    by destruct (set_trap now key value w) as [w1 [b | error]].
  - unfold bind. rewrite deleteProperty_trap_steps.
    cbn [fst ret]. apply notify_within_capacity. cbn [sm remove].
    split; [apply Hw |].
    apply (addHistory_within_capacity _ (sm w) Hw).
Qed.

Lemma mutations_within_capacity ms :
  forall w,
    within_capacity (sm w) ->
    within_capacity (sm (mutations ms w).1).
Proof.
  unfold mutations.
  induction ms as [| m rest IH]; intros w Hw; cbn [for_each].
  - exact Hw.
  - unfold bind. pose proof (mutate_within_capacity m w Hw) as Hw1.
    destruct (mutate m w) as [w1 [[] | error]]; cbn [fst] in *.
    + by apply IH.
    + exact Hw1.
Qed.

End Capacity.

(** C7. From a store within its capacity (as the constructor makes it), and
    with watchers that keep it so, no sequence of [set] and [delete] takes
    the history above 50 records; and recording into a history of exactly
    50 drops its first record and keeps the other 49, in order, before the
    new one. *)
Theorem history_bounded_fifo (w : World) :
  (forall callback newValue oldValue s e,
     within_capacity s ->
     within_capacity (watcher callback newValue oldValue (s, e)).1.1) ->
  within_capacity (sm w) ->
  (forall ms, length (history (sm (mutations ms w).1)) <= 50) /\
  (forall record,
     length (history (sm w)) = 50 ->
     history (addHistory record (sm w)) = tail (history (sm w)) ++ [record]).
Proof.
  intros Hwatch Hw. split.
  - intros ms. by apply mutations_within_capacity.
  - intros record Hfull. apply addHistory_evicts_oldest; [apply Hw | exact Hfull].
Qed.

(** *** Assignments that change the value *)


(** Reading back what was assigned, for a key without watchers whose
    assignment writes a member: [get] returns the assigned value, or, when
    the assignment was skipped, the value it read before, which is strictly
    equal to it (and need not be the same: the store keeps [+0] when [-0]
    is assigned). No other key reads differently and no watcher list
    changes. *)
Theorem set_then_get now key value (w : World) :
  listeners (sm w) !! key = None ->
  lands_on_setter (sm w) (env w) key = false ->
  let w' := (set now (Key key) value w).1 in
  (get key w' = value \/
   (get key w' = get key w /\ strict_eq (get key w) value = true)) /\
  (forall other, other <> key -> get other w' = get other w) /\
  listeners (sm w') = listeners (sm w).
Proof.
  intros Hnone Hmember w'. subst w'.
  rewrite set_key_run by exact Hmember. cbn [fst]. unfold get.
  destruct (strict_eq (read (sm w) (env w) key) value) eqn:Heq.
  - rewrite set_trap_unchanged by exact Heq. cbn [fst].
    split; [by right |]. by split.
  - rewrite set_trap_stores by assumption. cbn [fst].
    rewrite notify_without_watchers by exact Hnone.
    cbn [fst sm env]. split; [| split].
    + left. apply read_put_eq.
    + intros other Hne. by rewrite read_put_ne.
    + reflexivity.
Qed.

(** *** Reading the history *)

(** [getHistory(limit)] returns the newest records, oldest first: the
    history is some older records followed by the result. A positive limit
    gives [limit] records or the whole history if that is shorter; the limit
    0 gives the whole history, because [slice(-0)] is [slice(0)]. *)
Theorem getHistory_returns_latest limit (s : Self) :
  (exists older, history s = older ++ getHistory limit s) /\
  length (getHistory limit s)
  = (if decide (limit = 0) then length (history s)
     else limit `min` length (history s)).
Proof.
  unfold getHistory. case_bool_decide as Hzero.
  - rewrite decide_True by exact Hzero. split; [by exists [] | reflexivity].
  - rewrite decide_False by exact Hzero. split.
    + exists (take (length (history s) - limit) (history s)).
      by rewrite take_drop.
    + rewrite length_drop. lia.
Qed.

(** *** Watching and unwatching *)

Lemma Store_ext (s1 s2 : Self) :
  state s1 = state s2 ->
  prototype s1 = prototype s2 ->
  (forall key, listeners s1 !! key = listeners s2 !! key) ->
  history s1 = history s2 ->
  maxHistorySize s1 = maxHistorySize s2 ->
  s1 = s2.
Proof.
  destruct s1, s2. cbn. intros -> -> Hl -> ->. f_equal. by apply map_eq.
Qed.

Lemma watch_pushes_last key callback (s : Self) :
  listeners (watch key callback s) !! key
  = Some (default [] (listeners s !! key) ++ [callback]).
Proof.
  unfold watch. cbn [listeners].
  destruct (listeners s !! key) as [callbacks |] eqn:Hget.
  - rewrite lookup_insert_eq, Hget. reflexivity.
  - rewrite !lookup_insert_eq. reflexivity.
Qed.

Lemma watch_lookup_other key other callback (s : Self) :
  other <> key ->
  listeners (watch key callback s) !! other = listeners s !! other.
Proof.
  intros Hne. unfold watch. cbn [listeners].
  destruct (listeners s !! key); by rewrite ?lookup_insert_ne.
Qed.

(** [unwatch] takes back what [watch] did: for a callback that was not
    watching the key before, the store is exactly what it was; and a
    callback that watches a key twice loses its first registration. *)
Theorem unwatch_undoes_watch key callback (s : Self) :
  tidy s ->
  (callback ∉ default [] (listeners s !! key) ->
   unwatch key callback (watch key callback s) = s) /\
  (callback ∈ default [] (listeners s !! key) ->
   listeners (unwatch key callback (watch key callback s)) !! key
   = Some (remove_first (default [] (listeners s !! key)) callback
           ++ [callback])).
Proof.
  intros Htidy. specialize (Htidy key). split.
  - intros Hfresh. unfold unwatch. rewrite watch_pushes_last.
    rewrite JsFacts.remove_first_pushed by exact Hfresh.
    destruct (listeners s !! key) as [[| c rest] |] eqn:Hget; [done | |];
      cbn [default length].
    + rewrite bool_decide_false by done.
      apply Store_ext; try reflexivity. intros k. cbn [listeners].
      destruct (decide (k = key)) as [-> | Hne].
      * by rewrite lookup_insert_eq.
      * rewrite lookup_insert_ne by done. by apply watch_lookup_other.
    + rewrite bool_decide_true by done.
      apply Store_ext; try reflexivity. intros k. cbn [listeners].
      destruct (decide (k = key)) as [-> | Hne].
      * by rewrite lookup_delete_eq.
      * rewrite lookup_delete_ne by done. by apply watch_lookup_other.
  - intros Hin. unfold unwatch. rewrite watch_pushes_last.
    rewrite JsFacts.remove_first_app by exact Hin.
    rewrite bool_decide_false by (rewrite length_app; cbn; lia).
    cbn [listeners]. by rewrite lookup_insert_eq.
Qed.

Lemma watch_tidy key callback (s : Self) :
  tidy s -> tidy (watch key callback s).
Proof.
  intros Htidy k. destruct (decide (k = key)) as [-> | Hne].
  - rewrite watch_pushes_last. intros [=Hnil]. by destruct (default _ _).
  - rewrite watch_lookup_other by exact Hne. apply Htidy.
Qed.

(** *** [reset] and [destroy] *)

Lemma keep_last_length {A} n (l : list A) :
  length (keep_last n l) = n `min` length l.
Proof. unfold keep_last. rewrite length_drop. lia. Qed.

Lemma keep_last_app {A} n (l r : list A) :
  keep_last n (keep_last n l ++ r) = keep_last n (l ++ r).
Proof.
  unfold keep_last. rewrite !length_app, length_drop.
  destruct (decide (length l <= n)) as [Hle | Hgt].
  - replace (length l - n) with 0 by lia. cbn [drop].
    by replace (length l - 0) with (length l) by lia.
  - replace (length l - (length l - n) + length r - n) with (length r) by lia.
    replace (length l + length r - n) with ((length l - n) + length r) by lia.
    rewrite <- drop_drop. f_equal.
    rewrite drop_app_le by lia. reflexivity.
Qed.

Lemma addHistory_keeps_last record (s : Self) :
  length (history s) <= maxHistorySize s ->
  history (addHistory record s)
  = keep_last (maxHistorySize s) (history s ++ [record]).
Proof.
  intros Hlen. unfold addHistory, keep_last. cbn [history].
  rewrite length_app. cbn [length].
  case_bool_decide as Hfull.
  - replace (length (history s) + 1 - maxHistorySize s) with 1 by lia.
    by destruct (history s ++ [record]).
  - by replace (length (history s) + 1 - maxHistorySize s) with 0 by lia.
Qed.

Lemma delete_key_run now key (w : World) :
  (deleteProperty_trap now key ;;; ret tt) w
  = ((deleteProperty_trap now key w).1, Return tt).
Proof. unfold bind. by rewrite deleteProperty_trap_steps. Qed.

Lemma delete_keys_returns now keys :
  forall w, (delete_keys now keys w).2 = Return tt.
Proof.
  unfold delete_keys. induction keys as [| key rest IH]; intros w;
    cbn [for_each]; [reflexivity |].
  unfold bind at 1. rewrite delete_key_run. apply IH.
Qed.

Lemma assign_members_returns now newState :
  (forall e key addr,
     (key, VRef addr) ∈ newState -> above_target e addr = false) ->
  forall w, (assign_members now newState w).2 = Return tt.
Proof.
  unfold assign_members.
  induction newState as [| [key value] rest IH]; intros Hsafe w;
    cbn [for_each]; [reflexivity |].
  unfold bind at 1. cbn [fst snd]. unfold bind at 1.
  pose proof (set_trap_returns now key value w) as Hret.
  destruct (set_trap now key value w) as [w1 r]. cbn in Hret.
  rewrite Hret.
  - cbn [ret]. apply IH. intros e k addr Hin. apply (Hsafe e k). by right.
  - intros e addr ->. apply (Hsafe e key). left.
Qed.

Lemma reset_run now keys newState (w : World) :
  (assign_members now newState (delete_keys now keys w).1).2 = Return tt ->
  reset now keys newState w
  = (modify_sm clearHistory
       (assign_members now newState (delete_keys now keys w).1).1).
Proof.
  intros Hset. unfold reset. unfold bind at 1.
  pose proof (delete_keys_returns now keys w) as Hdel.
  destruct (delete_keys now keys w) as [w1 r1]. cbn in Hdel. subst r1.
  unfold bind at 1. cbn [fst] in *.
  destruct (assign_members now newState w1) as [w2 r2]. cbn in Hset.
  by subst r2.
Qed.

(** [reset] returns normally and leaves an empty history, whatever the
    watchers do while the old keys are deleted and the new ones assigned:
    the history is cleared last. The one thing that can stop it before is
    the [TypeError] of an assignment to [__proto__]: no object among the
    members of [newState] may have the target among its prototypes. *)
Theorem reset_clears_history now keys newState (w : World) :
  (forall e key addr,
     (key, VRef addr) ∈ newState -> above_target e addr = false) ->
  (reset now keys newState w).2 = Return tt /\
  history (sm (reset now keys newState w).1) = [].
Proof.
  intros Hsafe. rewrite reset_run by (by apply assign_members_returns).
  split; reflexivity.
Qed.

(** Deleting keys of a store that nobody watches. *)
Lemma delete_unwatched_step now key (w : World) :
  listeners (sm w) !! key = None ->
  (deleteProperty_trap now key w).1
  = {| sm := remove key (addHistory (deletion now w key) (sm w));
       env := env w; console := console w; notified := notified w |}.
Proof.
  intros Hnone. rewrite deleteProperty_trap_steps. cbn [fst].
  by rewrite notify_without_watchers.
Qed.

Lemma foldr_delete_commute (key : string) (keys : list string)
    (m : gmap string Value) :
  foldr delete (delete key m) keys = delete key (foldr delete m keys).
Proof.
  induction keys as [| k rest IH]; [reflexivity |].
  cbn [foldr]. rewrite IH. apply delete_delete.
Qed.

Lemma foldr_delete_lookup (keys : list string) (m : gmap string Value) key :
  foldr delete m keys !! key = if decide (key ∈ keys) then None else m !! key.
Proof.
  induction keys as [| k rest IH]; cbn [foldr].
  - rewrite decide_False by apply not_elem_of_nil. reflexivity.
  - destruct (decide (key = k)) as [-> | Hne].
    + rewrite lookup_delete_eq, decide_True by left. reflexivity.
    + rewrite lookup_delete_ne, IH by done.
      destruct (decide (key ∈ rest)) as [Hin | Hout].
      * rewrite decide_True by (by right). reflexivity.
      * rewrite decide_False; [reflexivity |].
        intros [-> | Hin]%elem_of_cons; done.
Qed.

Lemma deletion_after_other now key (w : World) record (keys : list string) :
  key ∉ keys ->
  map (deletion now {| sm := remove key (addHistory record (sm w));
                       env := env w; console := console w;
                       notified := notified w |}) keys
  = map (deletion now w) keys.
Proof.
  intros Hfresh. apply map_ext_in. intros k Hin.
  apply list_elem_of_In in Hin. unfold deletion, get. cbn [sm env].
  rewrite read_remove_ne by (intros ->; done). reflexivity.
Qed.

Lemma delete_keys_unwatched now keys :
  forall w : World,
    listeners (sm w) = ∅ ->
    NoDup keys ->
    length (history (sm w)) <= maxHistorySize (sm w) ->
    delete_keys now keys w
    = ({| sm := {| state := foldr delete (state (sm w)) keys;
                   prototype := prototype (sm w);
                   listeners := ∅;
                   history := keep_last (maxHistorySize (sm w))
                                (history (sm w) ++ map (deletion now w) keys);
                   maxHistorySize := maxHistorySize (sm w) |};
          env := env w; console := console w; notified := notified w |},
       Return tt).
Proof.
  unfold delete_keys.
  induction keys as [| key rest IH]; intros w Hnone Hdup Hlen; cbn [for_each].
  - cbn [map foldr]. rewrite app_nil_r.
    unfold keep_last. replace (_ - _) with 0 by lia. cbn [drop].
    destruct w as [[st pr ls h m] e c n]. cbn in *. by subst ls.
  - apply NoDup_cons in Hdup as [Hfresh Hdup].
    unfold bind at 1. rewrite delete_key_run, delete_unwatched_step
      by (rewrite Hnone; apply lookup_empty).
    pose proof (addHistory_keeps_last (deletion now w key) (sm w) Hlen)
      as Hkeep.
    rewrite IH; [| exact Hnone | exact Hdup |].
    + cbn [sm env console notified]. f_equal. f_equal.
      change (maxHistorySize (remove key (addHistory (deletion now w key)
                                            (sm w))))
        with (maxHistorySize (sm w)).
      change (history (remove key (addHistory (deletion now w key)
                                     (sm w))))
        with (history (addHistory (deletion now w key) (sm w))).
      change (state (remove key (addHistory (deletion now w key)
                                   (sm w))))
        with (delete key (state (sm w))).
      change (prototype (remove key (addHistory (deletion now w key)
                                       (sm w))))
        with (prototype (sm w)).
      rewrite deletion_after_other by exact Hfresh.
      rewrite Hkeep, keep_last_app, <- app_assoc.
      f_equal. apply foldr_delete_commute.
    + cbn [sm].
      change (maxHistorySize (remove key (addHistory (deletion now w key)
                                            (sm w))))
        with (maxHistorySize (sm w)).
      change (history (remove key (addHistory (deletion now w key)
                                     (sm w))))
        with (history (addHistory (deletion now w key) (sm w))).
      rewrite Hkeep, keep_last_length. lia.
Qed.

(** [destroy] clears the watchers and the history first and deletes the
    keys afterwards, through the proxy. So no watcher is called, [keys] are
    gone, and the history is not empty at the end: it holds the [delete]
    records of the keys (the last [maxHistorySize] of them), each with the
    value the key had. *)
Theorem destroy_leaves_delete_records now keys (w : World) :
  NoDup keys ->
  let r := destroy now keys w in
  r.2 = Return tt /\
  listeners (sm r.1) = ∅ /\
  (forall key,
     state (sm r.1) !! key
     = if decide (key ∈ keys) then None else state (sm w) !! key) /\
  history (sm r.1)
  = keep_last (maxHistorySize (sm w)) (map (deletion now w) keys) /\
  notified r.1 = notified w.
Proof.
  intros Hdup r. subst r.
  set (cleared := {| sm := clearHistory (clearListeners (sm w));
                     env := env w; console := console w;
                     notified := notified w |}).
  assert (Hrun : destroy now keys w = delete_keys now keys cleared)
    by reflexivity.
  rewrite Hrun.
  rewrite delete_keys_unwatched; [| reflexivity | exact Hdup | cbn; lia].
  cbn [fst snd sm listeners state history notified maxHistorySize
       clearHistory clearListeners cleared app].
  split; [reflexivity |]. split; [reflexivity |]. split; [| split].
  - intros key. apply foldr_delete_lookup.
  - reflexivity.
  - reflexivity.
Qed.

(** Assigning the members of an object whose keys all read [undefined], in
    a store that nobody watches. *)
Lemma assign_members_unwatched now newState :
  forall w : World,
    listeners (sm w) = ∅ ->
    NoDup newState.*1 ->
    (forall key, key ∈ newState.*1 -> get key w = VUndefined) ->
    let r := assign_members now newState w in
    r.2 = Return tt /\
    listeners (sm r.1) = ∅ /\
    forall key,
      get key r.1
      = default (get key w)
                ((list_to_map newState : gmap string Value) !! key).
Proof.
  unfold assign_members.
  induction newState as [| [k v] rest IH]; intros w Hnone Hdup Hundef;
    cbn [for_each].
  - cbn. split; [reflexivity |]. split; [exact Hnone | reflexivity].
  - cbn [fmap list_fmap] in Hdup. apply NoDup_cons in Hdup as [Hfresh Hdup].
    cbn zeta.
    assert (Hk : get k w = VUndefined) by (apply Hundef; left).
    assert (Hmember : lands_on_setter (sm w) (env w) k = false)
      by (by apply undefined_is_no_setter).
    match goal with |- context [(?first ;;; ?others) w] =>
      assert (Hrun : (first ;;; others) w
                     = others (set_trap now k v w).1)
        by (unfold bind at 1;
            change (first w) with (set now (Key k) v w);
            by rewrite set_key_run)
    end.
    rewrite Hrun. clear Hrun.
    assert (Hstep : exists w1,
      (set_trap now k v w).1 = w1 /\
      listeners (sm w1) = ∅ /\
      get k w1 = v /\
      forall key, key <> k -> get key w1 = get key w).
    { unfold get in *.
      destruct (strict_eq (read (sm w) (env w) k) v) eqn:Heq.
      - eexists. split; [by rewrite set_trap_unchanged |].
        cbn [fst]. split; [exact Hnone |]. split; [| done].
        rewrite Hk in Heq |- *. by destruct v.
      - eexists. split.
        { rewrite set_trap_stores by assumption. cbn [fst].
          rewrite notify_without_watchers
            by (cbn [sm put addHistory listeners]; rewrite Hnone;
                apply lookup_empty).
          reflexivity. }
        cbn [fst sm env put addHistory listeners].
        split; [exact Hnone |]. split.
        + apply (read_put_eq (addHistory _ (sm w))).
        + intros key Hne.
          by rewrite (read_put_ne (addHistory _ (sm w))). }
    destruct Hstep as (w1 & -> & Hnone1 & Hk1 & Hother).
    destruct (IH w1 Hnone1 Hdup) as (Hret & Hl & Hget).
    { intros key Hin. rewrite Hother; [apply Hundef; by right |].
      intros ->. done. }
    split; [exact Hret |]. split; [exact Hl |]. intros key. rewrite Hget.
    cbn [list_to_map foldr]. destruct (decide (key = k)) as [-> | Hne].
    + rewrite lookup_insert_eq.
      rewrite not_elem_of_list_to_map_1 by exact Hfresh.
      exact Hk1.
    + rewrite lookup_insert_ne by done. by rewrite Hother.
Qed.

(** In a store that nobody watches, [reset(newState)] replaces the members
    of the target: afterwards every member of [newState] reads as given,
    every other key reads what the prototypes of the target answer
    ([undefined] for a name they do not know, but the inherited function
    for [toString]), and the history is empty. [keys] are the keys of the
    target, [newState] the members of an object (no key twice), none of
    them a name that the prototypes answer. *)
Theorem reset_replaces_state now keys newState (w : World) :
  listeners (sm w) = ∅ ->
  NoDup keys ->
  (forall key, is_Some (state (sm w) !! key) -> key ∈ keys) ->
  NoDup newState.*1 ->
  (forall key, key ∈ newState.*1 -> inherited (sm w) (env w) key = VUndefined) ->
  length (history (sm w)) <= maxHistorySize (sm w) ->
  let r := reset now keys newState w in
  r.2 = Return tt /\
  history (sm r.1) = [] /\
  forall key,
    get key r.1
    = default (inherited (sm w) (env w) key)
              ((list_to_map newState : gmap string Value) !! key).
Proof.
  intros Hnone Hdup Hcover Hmembers Hfree Hlen r. subst r.
  pose proof (delete_keys_unwatched now keys w Hnone Hdup Hlen) as Hdel.
  set (w1 := (delete_keys now keys w).1) in *.
  assert (Hgone : forall key, get key w1 = inherited (sm w) (env w) key).
  { intros key. subst w1. rewrite Hdel. unfold get, read. cbn [fst sm env state].
    rewrite foldr_delete_lookup.
    destruct (decide (key ∈ keys)) as [Hin | Hout]; [reflexivity |].
    destruct (state (sm w) !! key) eqn:Hget; [| reflexivity].
    destruct Hout. apply Hcover. by rewrite Hget. }
  assert (Hnone1 : listeners (sm w1) = ∅) by (subst w1; by rewrite Hdel).
  destruct (assign_members_unwatched now newState w1 Hnone1 Hmembers)
    as (Hret & _ & Hget).
  { intros key Hin. rewrite Hgone. by apply Hfree. }
  rewrite reset_run by exact Hret. fold w1.
  split; [reflexivity |]. split; [reflexivity |].
  intros key. unfold get in *. cbn [modify_sm modify fst sm env clearHistory].
  rewrite read_clearHistory, Hget. by rewrite Hgone.
Qed.

End Store.

Arguments mkWorld {Env} sm env console notified.
Arguments sm {Env} w.
Arguments env {Env} w.
Arguments console {Env} w.
Arguments notified {Env} w.
Arguments lookup_chain {Env} chain s e property.
Arguments inherited {Env} chain s e property.
Arguments read {Env} chain s e property.
Arguments get {Env} chain key w.
Arguments lands_on_setter {Env} chain s e property.
Arguments assign {Env} chain above_target property value w.
Arguments notify {Env} watcher key newValue oldValue w.
Arguments set_trap {Env} watcher chain above_target now property value w.
Arguments deleteProperty_trap {Env} watcher chain now property w.
Arguments set {Env} watcher chain above_target now key value w.
Arguments mutations {Env} watcher chain above_target ms w.
Arguments reset {Env} watcher chain above_target now keys newState w.
Arguments destroy {Env} watcher chain now keys w.

(** *** Concrete runs *)

(** Watchers that return at once, and watchers that throw. *)
Definition quiet (callback : nat) (newValue oldValue : Value) (s : Self * unit)
  : Self * unit * option Value :=
  (s.1, s.2, None).

Definition failing (callback : nat) (newValue oldValue : Value)
  (s : Self * unit) : Self * unit * option Value :=
  (s.1, s.2, Some (VStr "boom")).

(** A heap in which every object that may come to stand on the chain of
    the target is [Object.prototype] or an empty object literal, so that a
    lookup finds what [Object.prototype] holds, and in which no object has
    the target among its prototypes. *)
Definition literals (e : unit) (addr : nat) (property : string) : Slot :=
  Object_prototype_slot property.

Definition apart (e : unit) (addr : nat) : bool := false.

(** The same heap, in which the object 77 inherits from the target. *)
Definition heir (e : unit) (addr : nat) : bool := bool_decide (addr = 77).

(** A store holding [activeTab: 'upload'], with watchers 3 and 5 on
    ["activeTab"] and watcher 8 on ["missing"]. *)
Definition tabs : World unit :=
  mkWorld
    (watch "missing" 8
       (watch "activeTab" 5
          (watch "activeTab" 3
             (new_StateManager {[ "activeTab" := VStr "upload" ]}))))
    tt [] [].


(** A store holding [activeTab: 'upload'] that nobody watches. *)
Definition unwatched : World unit :=
  mkWorld (new_StateManager {[ "activeTab" := VStr "upload" ]}) tt [] [].

(** Sixty assignments of sixty different objects to one key. *)
Definition sixty_sets : list Mutation :=
  map (fun i => SetKey 0%float "currentTask" (VRef i)) (seq 0 60).

(** In a store built from an object literal, on this heap, the one name
    whose assignment does not write a member is [__proto__], as long as the
    target has no member of that name. *)
Lemma literal_store_setter (w : World unit) key :
  prototype (sm w) <> None ->
  lands_on_setter literals (sm w) (env w) key
  = bool_decide (key = "__proto__" /\ state (sm w) !! key = None).
Proof.
  intros Hproto. unfold lands_on_setter, lookup_chain, literals.
  destruct (prototype (sm w)) as [addr |]; [| done].
  unfold Object_prototype_slot.
  destruct (state (sm w) !! key) as [value |] eqn:Hown.
  - rewrite bool_decide_false; [reflexivity |]. by intros [_ ?].
  - case_bool_decide as Hname.
    + by rewrite bool_decide_true.
    + rewrite bool_decide_false by (by intros [? _]).
      by destruct (list_find _ _) as [[i [name method]] |].
Qed.

(** On [tabs], assigning ['upload'] to [activeTab] again. *)
Lemma set_strictly_equal_is_noop_witness :
  strict_eq (get literals "activeTab" tabs) (VStr "upload") = true /\
  set quiet literals apart 1%float (Key "activeTab") (VStr "upload") tabs
  = (tabs, Return tt).
Proof.
  split; [reflexivity |].
  exact (proj1 (set_strictly_equal_is_noop unit quiet literals apart
                  1%float 2%float "activeTab" (VStr "upload") tabs eq_refl)).
Defined.




Lemma quiet_keeps_capacity callback newValue oldValue (s : Self) (e : unit) :
  within_capacity s ->
  within_capacity (quiet callback newValue oldValue (s, e)).1.1.
Proof. intros H. exact H. Defined.

(** On [tabs], sixty effective assignments in a row. *)
Lemma history_bounded_fifo_witness :
  within_capacity (sm tabs) /\
  length (history (sm (mutations quiet literals apart sixty_sets tabs).1))
  <= 50.
Proof.
  split; [split; [reflexivity | cbn; lia] |].
  apply (history_bounded_fifo unit quiet literals apart tabs
           quiet_keeps_capacity).
  split; [reflexivity | cbn; lia].
Defined.

(** After the sixty assignments the history holds the last fifty of them,
    oldest first. *)
Example sixty_sets_keep_last_fifty :
  map newValue
      (history (sm (mutations quiet literals apart sixty_sets tabs).1))
  = map VRef (seq 10 50).
Proof. vm_compute. reflexivity. Qed.

(** [NaN] is not strictly equal to itself: assigning it twice records
    twice. *)
Example set_NaN_twice_records_twice :
  let twice :=
    (set quiet literals apart 1%float (Key "transcriptionProgress")
         (VNum nan) ;;;
     set quiet literals apart 2%float (Key "transcriptionProgress")
         (VNum nan)) tabs in
  length (history (sm twice.1)) = 2.
Proof. vm_compute. reflexivity. Qed.

(** Deleting a key and assigning [undefined] to it are told apart by the
    record and by the keys that remain. *)
Example delete_is_not_set_undefined :
  let deleted :=
    (deleteProperty_trap quiet literals 1%float "activeTab" tabs).1 in
  let cleared :=
    (set quiet literals apart 1%float (Key "activeTab") VUndefined tabs).1 in
  state (sm deleted) !! "activeTab" = None /\
  state (sm cleared) !! "activeTab" = Some VUndefined /\
  map action (history (sm deleted)) = [Some "delete"] /\
  map action (history (sm cleared)) = [None].
Proof. vm_compute. repeat split. Qed.

(** What the target inherits is read like a member: an unassigned
    [toString] reads as a function and [__proto__] as [Object.prototype],
    so [set('toString', undefined)] is an effective assignment. *)
Example inherited_names_are_read :
  get literals "toString" unwatched = VRef 9 /\
  get literals "__proto__" unwatched = VRef Object_prototype /\
  get literals "currentTask" unwatched = VUndefined /\
  let cleared :=
    (set quiet literals apart 1%float (Key "toString") VUndefined
         unwatched).1 in
  map oldValue (history (sm cleared)) = [VRef 9] /\
  state (sm cleared) !! "toString" = Some VUndefined.
Proof. vm_compute. repeat split. Qed.

(** Assigning a primitive to [__proto__] twice: each assignment is
    recorded, because the key goes on reading as [Object.prototype], and
    nothing is stored. *)
Example set_proto_primitive_stores_nothing :
  let twice :=
    (set quiet literals apart 1%float (Key "__proto__") (VNum 5) ;;;
     set quiet literals apart 2%float (Key "__proto__") (VNum 5))
      unwatched in
  twice.2 = Return tt /\
  state (sm twice.1) = state (sm unwatched) /\
  prototype (sm twice.1) = Some Object_prototype /\
  get literals "__proto__" twice.1 = VRef Object_prototype /\
  map oldValue (history (sm twice.1))
  = [VRef Object_prototype; VRef Object_prototype].
Proof. vm_compute. repeat split. Qed.

(** Assigning an object to [__proto__] replaces the prototype of the
    target and stores no member; assigning [null] leaves the target without
    prototype, after which [toString] reads [undefined] and [__proto__] is a
    member like any other. *)
Example set_proto_object_replaces_prototype :
  let adopted :=
    (set quiet literals apart 1%float (Key "__proto__") (VRef 40)
         unwatched).1 in
  let orphan :=
    (set quiet literals apart 1%float (Key "__proto__") VNull unwatched).1 in
  let member :=
    (set quiet literals apart 2%float (Key "__proto__") (VNum 5) orphan).1 in
  state (sm adopted) = state (sm unwatched) /\
  prototype (sm adopted) = Some 40 /\
  prototype (sm orphan) = None /\
  get literals "toString" orphan = VUndefined /\
  state (sm member) !! "__proto__" = Some (VNum 5).
Proof. vm_compute. repeat split. Qed.

(** An object that inherits from the target cannot become its prototype:
    the assignment throws after the record was written, and no watcher is
    called. *)
Example set_proto_cycle_throws :
  let r := set quiet literals heir 1%float (Key "__proto__") (VRef 77)
               unwatched in
  r.2 = Throw TypeError /\
  prototype (sm r.1) = Some Object_prototype /\
  map newValue (history (sm r.1)) = [VRef 77] /\
  notified r.1 = [].
Proof. vm_compute. repeat split. Qed.

(** For that reason [reset] can stop before it clears the history. *)
Example reset_stopped_by_cycle :
  let r := reset quiet literals heir 1%float ["activeTab"]
                 [("__proto__", VRef 77)] unwatched in
  r.2 = Throw TypeError /\ length (history (sm r.1)) = 2.
Proof. vm_compute. repeat split. Qed.

Lemma tabs_tidy : tidy (sm tabs).
Proof.
  do 3 apply watch_tidy. intros key. cbn. by rewrite lookup_empty.
Qed.


(** On [tabs], for the key [currentTask], which nobody watches. *)
Lemma set_then_get_witness :
  listeners (sm tabs) !! "currentTask" = None /\
  lands_on_setter literals (sm tabs) (env tabs) "currentTask" = false /\
  get literals "currentTask"
      (set quiet literals apart 1%float (Key "currentTask") (VStr "job-7")
           tabs).1
  = VStr "job-7".
Proof.
  split; [reflexivity |]. split; [reflexivity |].
  destruct (proj1 (set_then_get unit quiet literals apart 1%float
                     "currentTask" (VStr "job-7") tabs eq_refl eq_refl))
    as [Hset | [_ Hsame]].
  - exact Hset.
  - discriminate Hsame.
Defined.


(** On [tabs], for watcher 9, which watches nothing yet. *)
Lemma unwatch_undoes_watch_witness :
  tidy (sm tabs) /\
  (9 ∉ default [] (listeners (sm tabs) !! "activeTab")) /\
  unwatch "activeTab" 9 (watch "activeTab" 9 (sm tabs)) = sm tabs.
Proof.
  assert (Hfresh : 9 ∉ default [] (listeners (sm tabs) !! "activeTab")).
  { change (9 ∉ [3; 5]). intros Hin.
    repeat match goal with
           | H : _ ∈ _ |- _ => inversion H; subst; clear H
           end. }
  split; [exact tabs_tidy |]. split; [exact Hfresh |].
  exact (proj1 (unwatch_undoes_watch "activeTab" 9 (sm tabs) tabs_tidy)
           Hfresh).
Defined.

(** On [tabs], replaced by [{currentTask: <object 40>}], with watchers that
    throw. *)
Lemma reset_clears_history_witness :
  (forall (e : unit) key addr,
     (key, VRef addr) ∈ [("currentTask", VRef 40)] -> apart e addr = false) /\
  history (sm (reset failing literals apart 1%float ["activeTab"]
                 [("currentTask", VRef 40)] tabs).1) = [].
Proof.
  assert (Hsafe : forall (e : unit) key addr,
            (key, VRef addr) ∈ [("currentTask", VRef 40)] ->
            apart e addr = false) by reflexivity.
  split; [exact Hsafe |].
  exact (proj2 (reset_clears_history unit failing literals apart 1%float
                  ["activeTab"] [("currentTask", VRef 40)] tabs Hsafe)).
Defined.

(** On [tabs], whose only key is [activeTab]: the watchers 3 and 5 are not
    called, and one record is left. *)
Lemma destroy_leaves_delete_records_witness :
  NoDup ["activeTab"] /\
  notified (destroy failing literals 1%float ["activeTab"] tabs).1 = [] /\
  history (sm (destroy failing literals 1%float ["activeTab"] tabs).1)
  = [{| property := "activeTab"; oldValue := VStr "upload";
        newValue := VUndefined; timestamp := 1%float;
        action := Some "delete" |}].
Proof.
  assert (Hdup : NoDup ["activeTab"])
    by (apply NoDup_singleton).
  split; [exact Hdup |].
  pose proof (destroy_leaves_delete_records unit failing literals 1%float
                ["activeTab"] tabs Hdup) as (_ & _ & _ & Hhist & Hlog).
  split; [exact Hlog | exact Hhist].
Defined.

(** On [unwatched], replaced by [{currentPage: 2}]: the new member reads 2,
    the old key reads [undefined], and [toString] reads the function of
    [Object.prototype] as before. *)
Lemma reset_replaces_state_witness :
  listeners (sm unwatched) = ∅ /\
  NoDup ["activeTab"] /\
  inherited literals (sm unwatched) (env unwatched) "currentPage"
  = VUndefined /\
  let r := reset quiet literals apart 1%float ["activeTab"]
                 [("currentPage", VNum 2)] unwatched in
  get literals "currentPage" r.1 = VNum 2 /\
  get literals "activeTab" r.1 = VUndefined /\
  get literals "toString" r.1 = VRef 9.
Proof.
  assert (Hdup : NoDup ["activeTab"])
    by (apply NoDup_singleton).
  assert (Hmembers : NoDup [("currentPage", VNum 2)].*1)
    by (apply NoDup_singleton).
  assert (Hcover : forall key,
             is_Some (state (sm unwatched) !! key) -> key ∈ ["activeTab"]).
  { intros key [x Hx].
    change (({[ "activeTab" := VStr "upload" ]} : gmap string Value) !! key
            = Some x) in Hx.
    apply lookup_singleton_Some in Hx as [<- _]. left. }
  assert (Hfree : forall key,
             key ∈ [("currentPage", VNum 2)].*1 ->
             inherited literals (sm unwatched) (env unwatched) key
             = VUndefined).
  { intros key Hin. apply list_elem_of_singleton in Hin as ->. reflexivity. }
  split; [reflexivity |]. split; [exact Hdup |]. split; [reflexivity |].
  pose proof (reset_replaces_state unit quiet literals apart 1%float
                ["activeTab"] [("currentPage", VNum 2)] unwatched eq_refl
                Hdup Hcover Hmembers Hfree ltac:(cbn; lia)) as (_ & _ & Hget).
  cbn zeta.
  split; [exact (Hget "currentPage") |].
  split; [exact (Hget "activeTab") | exact (Hget "toString")].
Defined.

End StateManager.

(** ** LoadingStateManager *)

Module LoadingStateManager.
Import Js.

(** The object stored per task. [finished] is absent until [finishLoading]
    sets it; an absent member reads as falsy and is rendered [false] here.
    [estimatedTimeRemaining] is [null] until the first estimate. *)
Record LoadingState : Type := mkLoadingState {
  taskId : string;
  message : string;
  progress : float;
  stage : string;
  startTime : float;
  estimatedTimeRemaining : option float;
  finished : bool
}.

(** Which of the elements [document.getElementById] found when the manager
    was built. *)
Record ProgressElements : Type := mkProgressElements {
  container : bool;
  progressBar : bool;
  progressPercent : bool
}.

(** The fields of the manager; [destroy] sets [progressElements] to
    [null]. *)
Record Self : Type := mkSelf {
  loadingStates : gmap string LoadingState;
  progressElements : option ProgressElements
}.

(** What the manager does to the page, the console and the timer queue. *)
Inductive Effect : Type :=
| ConsoleWarn (task : string)
| ConsoleLog (stageName : Value)
| SetBar (percent : float)
| SetMessage (text : string) (remaining : option float)
| StageEvent (stageCode : string) (stageName : Value)
| ShowContainer
| HideContainer
| SetTimeout (delay : nat) (task : string).

Record World : Type := mkWorld {
  self : Self;
  effects : list Effect
}.

Definition new_LoadingStateManager (found : ProgressElements) : World :=
  {| self := {| loadingStates := ∅; progressElements := Some found |};
     effects := [] |}.

Definition TypeError : Value := VStr "TypeError".

Definition default_start_message : string := "載入中...".
Definition default_finish_message : string := "完成".
Definition default_stage : string := "processing".

(** [Math.max(0, x)] and [Math.min(100, x)], the constant being the first
    argument as at the call site. *)
Definition Math_max (a b : float) : float :=
  if (PrimFloat.is_nan a || PrimFloat.is_nan b)%bool then nan
  else if PrimFloat.ltb a b then b else a.

Definition Math_min (a b : float) : float :=
  if (PrimFloat.is_nan a || PrimFloat.is_nan b)%bool then nan
  else if PrimFloat.ltb b a then b else a.

(** Truthiness of a number and of a string. *)
Definition truthy_number (x : float) : bool :=
  negb (PrimFloat.is_nan x || PrimFloat.eqb x 0)%bool.

Definition truthy_string (x : string) : bool :=
  negb (bool_decide (x = "")).

Definition effect (e : Effect) : M World unit :=
  modify (fun w => {| self := self w; effects := effects w ++ [e] |}).

Definition modify_states
  (f : gmap string LoadingState -> gmap string LoadingState) : M World unit :=
  modify (fun w =>
    {| self := {| loadingStates := f (loadingStates (self w));
                  progressElements := progressElements (self w) |};
       effects := effects w |}).

(** [const { ... } = this.progressElements] throws when the field is
    [null]. *)
Definition elements : M World ProgressElements :=
  fun w =>
    match progressElements (self w) with
    | Some found => (w, Return found)
    | None => (w, Throw TypeError)
    end.

Definition stages : list (string * string) :=
  [("initializing", "初始化"); ("file_processing", "檔案處理");
   ("downloading", "下載中"); ("transcribing", "語音轉錄");
   ("diarizing", "說話者識別"); ("post_processing", "後處理");
   ("saving_files", "保存檔案"); ("completed", "完成"); ("error", "錯誤")].

Definition emitStageEvent (stageCode : string) (stageName : Value)
  : M World unit :=
  effect (StageEvent stageCode stageName).

(** [stages[stage]]: [stages] is an object literal, so a code that is
    none of its nine keys is still looked up on [Object.prototype], which
    answers [constructor], [toString] and the like with a function and
    [__proto__] with itself. *)
Definition stage_entry (stageCode : string) : Value :=
  match list_find (fun entry => entry.1 = stageCode) stages with
  | Some (_, entry) => VStr entry.2
  | None =>
    match Object_prototype_slot stageCode with
    | Missing => VUndefined
    | Member value => value
    | ProtoAccessor => VRef Object_prototype
    end
  end.

(** Truthiness of a value. *)
Definition truthy (v : Value) : bool :=
  match v with
  | VUndefined | VNull => false
  | VBool b => b
  | VNum x => truthy_number x
  | VStr text => truthy_string text
  | VRef _ => true
  end.

(** [const stageName = stages[stage] || stage]: the name that is logged and
    dispatched is a string, or the inherited object. *)
Definition updateStageIndicator (stageCode : string) : M World unit :=
  let stageName :=
    if truthy (stage_entry stageCode) then stage_entry stageCode
    else VStr stageCode in
  effect (ConsoleLog stageName) ;;;
  emitStageEvent stageCode stageName.

Definition updateMessage (state : LoadingState) : M World unit :=
  found <- elements ;;
  if negb (container found) then ret tt
  else
    effect (SetMessage (message state)
              match estimatedTimeRemaining state with
              | Some remaining =>
                if (truthy_number remaining
                    && PrimFloat.ltb (progress state) 100)%bool
                then Some remaining else None
              | None => None
              end).

Definition updateUI (state : LoadingState) : M World unit :=
  found <- elements ;;
  if (negb (progressBar found) || negb (progressPercent found))%bool
  then ret tt
  else
    effect (SetBar (progress state)) ;;;
    updateMessage state ;;;
    updateStageIndicator (stage state).

Definition showLoadingContainer : M World unit :=
  found <- elements ;;
  if container found then effect ShowContainer else ret tt.

Definition hideLoadingContainer : M World unit :=
  found <- elements ;;
  if container found then effect HideContainer else ret tt.

(** [startLoading(taskId, message = '載入中...')]; [now] is what
    [Date.now()] returns. *)
Definition startLoading (now : float) (task : string) (msg : option string)
  : M World unit :=
  let state :=
    {| taskId := task; message := default default_start_message msg;
       progress := 0; stage := "initializing"; startTime := now;
       estimatedTimeRemaining := None; finished := false |} in
  modify_states (insert task state) ;;;
  updateUI state ;;;
  showLoadingContainer.

(** [updateProgress(taskId, progress, message = null, stage =
    'processing')]. An argument left out (or [undefined]) is [None]. *)
Definition updateProgress (now : float) (task : string) (value : float)
  (msg : option string) (stageArg : option string) : M World unit :=
  let stageCode := default default_stage stageArg in
  fun w =>
    match loadingStates (self w) !! task with
    | None => effect (ConsoleWarn task) w
    | Some state =>
      let clamped := Math_min 100 (Math_max 0 value) in
      let message' :=
        match msg with
        | Some text => if truthy_string text then text else message state
        | None => message state
        end in
      let elapsed := PrimFloat.sub now (startTime state) in
      let rate := PrimFloat.div clamped elapsed in
      let state' :=
        {| taskId := taskId state; message := message';
           progress := clamped; stage := stageCode;
           startTime := startTime state;
           estimatedTimeRemaining :=
             if (PrimFloat.ltb 0 rate && PrimFloat.ltb clamped 100)%bool
             then Some (PrimFloat.div (PrimFloat.sub 100 clamped) rate)
             else estimatedTimeRemaining state;
           finished := finished state |} in
      (modify_states (insert task state') ;;; updateUI state') w
    end.

(** [finishLoading(taskId, success = true, message = '完成')] *)
Definition finishLoading (task : string) (success : bool)
  (msg : option string) : M World unit :=
  fun w =>
    match loadingStates (self w) !! task with
    | None => (w, Return tt)
    | Some state =>
      let state' :=
        {| taskId := taskId state;
           message := default default_finish_message msg;
           progress := 100;
           stage := if success then "completed" else "error";
           startTime := startTime state;
           estimatedTimeRemaining := estimatedTimeRemaining state;
           finished := true |} in
      (modify_states (insert task state') ;;;
       updateUI state' ;;;
       effect (SetTimeout (if success then 1000 else 3000) task)) w
    end.

(** The function that [finishLoading] hands to [setTimeout]. *)
Definition purge (task : string) : M World unit :=
  modify_states (delete task) ;;;
  n <- gets (fun w => size (loadingStates (self w))) ;;
  if bool_decide (n = 0) then hideLoadingContainer else ret tt.

Definition getProgress (task : string) (w : World) : float :=
  match loadingStates (self w) !! task with
  | Some state => progress state
  | None => 0
  end.

Definition getStage (task : string) (w : World) : option string :=
  match loadingStates (self w) !! task with
  | Some state => Some (stage state)
  | None => None
  end.

Definition isLoading (task : option string) (w : World) : bool :=
  match task with
  | Some t =>
    if truthy_string t then bool_decide (is_Some (loadingStates (self w) !! t))
    else bool_decide (0 < size (loadingStates (self w)))
  | None => bool_decide (0 < size (loadingStates (self w)))
  end.

(** *** The page is all that [updateUI] touches *)

Lemma updateUI_self state w :
  self (updateUI state w).1 = self w.
Proof.
  destruct w as [[states [[c b p] |]] log]; [| reflexivity].
  destruct b, p, c; reflexivity.
Qed.

Lemma updateUI_returns state w :
  progressElements (self w) <> None ->
  (updateUI state w).2 = Return tt.
Proof.
  destruct w as [[states [[c b p] |]] log]; cbn [self progressElements];
    [| congruence].
  intros _. destruct b, p, c; reflexivity.
Qed.

Lemma updateUI_effects state w :
  exists added, effects (updateUI state w).1 = effects w ++ added.
Proof.
  destruct w as [[states [[c b p] |]] log].
  - destruct b, p, c; cbn; rewrite <- ?app_assoc; eauto using app_nil_r.
  - exists []. cbn. by rewrite app_nil_r.
Qed.

Lemma stored_after_updateUI task state state' w :
  let w1 := {| self := {| loadingStates := <[task := state']>
                                            (loadingStates (self w));
                          progressElements := progressElements (self w) |};
               effects := effects w |} in
  loadingStates (self (updateUI state w1).1) !! task = Some state'.
Proof. intros w1. rewrite updateUI_self. cbn. apply lookup_insert_eq. Qed.

(** *** [updateProgress] called with a progress value only *)

(** C2, as the code has it. For a tracked task, [updateProgress(taskId,
    progress)] with neither message nor stage keeps the stored message, and
    sets the stored stage to the default of the parameter,
    ['processing']. *)
Theorem updateProgress_defaults now task value state (w : World) :
  loadingStates (self w) !! task = Some state ->
  exists state',
    loadingStates (self (updateProgress now task value None None w).1) !! task
    = Some state' /\
    message state' = message state /\
    stage state' = "processing".
Proof.
  intros Htracked. unfold updateProgress. rewrite Htracked.
  eexists. split.
  - unfold bind at 1. cbn [modify_states modify].
    rewrite updateUI_self. cbn [self loadingStates]. apply lookup_insert_eq.
  - split; reflexivity.
Qed.

(** *** Tasks that are not tracked *)

(** C3, as the code has it. For a task that is not tracked,
    [updateProgress] changes nothing but the console, where it writes one
    warning, and returns; [finishLoading] changes nothing at all, console
    included, and returns. *)
Theorem unknown_task_is_noop now task value msg stageArg success msg'
    (w : World) :
  loadingStates (self w) !! task = None ->
  updateProgress now task value msg stageArg w
  = ({| self := self w; effects := effects w ++ [ConsoleWarn task] |},
     Return tt) /\
  finishLoading task success msg' w = (w, Return tt).
Proof.
  intros Hunknown. unfold updateProgress, finishLoading.
  rewrite Hunknown. split; reflexivity.
Qed.

(** *** [finishLoading] on a tracked task *)

Lemma startLoading_tracks now task msg w :
  exists state,
    loadingStates (self (startLoading now task msg w).1) !! task = Some state.
Proof.
  eexists. unfold startLoading. unfold bind at 1. cbn [modify_states modify].
  unfold bind at 1.
  match goal with |- context [updateUI ?st ?w1] =>
    pose proof (updateUI_self st w1) as Hself;
    destruct (updateUI st w1) as [w2 [[] | error]]
  end; cbn in Hself.
  - destruct w2 as [[states [[c b p] |]] log]; cbn in Hself |- *;
      [destruct c |]; cbn; inversion Hself; apply lookup_insert_eq.
  - cbn. rewrite Hself. cbn. apply lookup_insert_eq.
Qed.

Lemma updateProgress_keeps_tracked now task value msg stageArg state w :
  loadingStates (self w) !! task = Some state ->
  exists state',
    loadingStates (self (updateProgress now task value msg stageArg w).1)
      !! task = Some state'.
Proof.
  intros Htracked. unfold updateProgress. rewrite Htracked.
  eexists. unfold bind at 1. cbn [modify_states modify].
  rewrite updateUI_self. cbn [self loadingStates]. apply lookup_insert_eq.
Qed.

Lemma finishLoading_stored task success msg state w :
  loadingStates (self w) !! task = Some state ->
  loadingStates (self (finishLoading task success msg w).1) !! task
  = Some {| taskId := taskId state;
            message := default default_finish_message msg;
            progress := 100;
            stage := if success then "completed" else "error";
            startTime := startTime state;
            estimatedTimeRemaining := estimatedTimeRemaining state;
            finished := true |}.
Proof.
  intros Htracked. unfold finishLoading. rewrite Htracked.
  unfold bind at 1. cbn [modify_states modify]. unfold bind at 1.
  match goal with |- context [updateUI ?st ?w1] =>
    pose proof (updateUI_self st w1) as Hself;
    destruct (updateUI st w1) as [w2 [[] | error]]
  end; cbn in Hself |- *; rewrite Hself; apply lookup_insert_eq.
Qed.

Lemma finishLoading_returns task success msg w :
  progressElements (self w) <> None ->
  (finishLoading task success msg w).2 = Return tt.
Proof.
  intros Hfound. unfold finishLoading.
  destruct (loadingStates (self w) !! task) as [state |]; [| reflexivity].
  unfold bind at 1. cbn [modify_states modify]. unfold bind at 1.
  match goal with |- context [updateUI ?st ?w1] =>
    pose proof (updateUI_returns st w1 Hfound) as Hret;
    destruct (updateUI st w1) as [w2 r]
  end. cbn in Hret. subst r. reflexivity.
Qed.

(** C8. For a tracked task, once [finishLoading(taskId, success, message)]
    is over the stored state has [progress = 100], [stage = 'completed'] for
    a true [success] and ['error'] otherwise, and [finished = true]; the call
    returns normally as long as the manager has not been destroyed. In
    particular, after [startLoading("t1")], [updateProgress("t1", 50, ...)]
    and [finishLoading("t1", true)], [getProgress("t1")] is 100 and
    [getStage("t1")] is ['completed']. *)
Theorem finishLoading_forces_terminal_state task success msg state
    (w : World) :
  loadingStates (self w) !! task = Some state ->
  let r := finishLoading task success msg w in
  (exists state',
     loadingStates (self r.1) !! task = Some state' /\
     progress state' = 100%float /\
     stage state' = (if success then "completed" else "error") /\
     finished state' = true) /\
  (progressElements (self w) <> None -> r.2 = Return tt) /\
  (forall t0 t1 msg0 msg1 stage1 msg2,
     let w1 := (startLoading t0 "t1" msg0 w).1 in
     let w2 := (updateProgress t1 "t1" 50 msg1 stage1 w1).1 in
     let w3 := (finishLoading "t1" true msg2 w2).1 in
     getProgress "t1" w3 = 100%float /\ getStage "t1" w3 = Some "completed").
Proof.
  intros Htracked r. split; [| split].
  - eexists. split; [by apply finishLoading_stored |]. by repeat split.
  - apply finishLoading_returns.
  - intros t0 t1 msg0 msg1 stage1 msg2 w1 w2 w3.
    destruct (startLoading_tracks t0 "t1" msg0 w) as [s1 H1].
    destruct (updateProgress_keeps_tracked t1 "t1" 50 msg1 stage1 s1 w1 H1)
      as [s2 H2].
    pose proof (finishLoading_stored "t1" true msg2 s2 w2 H2) as H3.
    unfold getProgress, getStage. fold w3 in H3. rewrite H3. by split.
Qed.

(** *** Concrete runs *)

Definition all_found : ProgressElements :=
  {| container := true; progressBar := true; progressPercent := true |}.

Definition one_task : World :=
  (startLoading 0 "t1" (Some "uploading")
     (new_LoadingStateManager all_found)).1.

(** C2, as the claim states it, fails: the stage of a task that has just
    been started is ['initializing'], and a call of [updateProgress] with a
    progress value only replaces it by ['processing']. *)
Lemma updateProgress_defaults_overwrite_stage :
  let w2 := (updateProgress 1000 "t1" 50 None None one_task).1 in
  getStage "t1" one_task = Some "initializing" /\
  getStage "t1" w2 = Some "processing" /\
  getStage "t1" w2 <> getStage "t1" one_task.
Proof. vm_compute. repeat split. discriminate. Qed.

(** On [one_task], the message ['uploading'] stays. *)
Lemma updateProgress_defaults_witness :
  exists state,
    loadingStates (self one_task) !! "t1" = Some state /\
    exists state',
      loadingStates
        (self (updateProgress 1000 "t1" 50 None None one_task).1) !! "t1"
      = Some state' /\
      message state' = message state /\
      stage state' = "processing".
Proof.
  eexists. split; [reflexivity |].
  exact (updateProgress_defaults 1000 "t1" 50 _ one_task eq_refl).
Defined.

(** C3, as the claim states it, fails for [finishLoading]: on a task that
    is not tracked it writes nothing to the console. *)
Lemma finishLoading_unknown_task_is_silent :
  loadingStates (self one_task) !! "ghost" = None /\
  effects (finishLoading "ghost" false (Some "boom") one_task).1
  = effects one_task /\
  ConsoleWarn "ghost"
    ∉ effects (finishLoading "ghost" false (Some "boom") one_task).1.
Proof.
  split; [reflexivity |]. split; [reflexivity |].
  vm_compute. intros H.
  repeat match goal with
         | H : list_elem_of _ _ |- _ => inversion H; subst; clear H
         | H : _ ∈ _ |- _ => inversion H; subst; clear H
         end.
Qed.

(** On [one_task], for the task ["ghost"] that was never started. *)
Lemma unknown_task_is_noop_witness :
  loadingStates (self one_task) !! "ghost" = None /\
  updateProgress 1000 "ghost" 50 None None one_task
  = ({| self := self one_task;
        effects := effects one_task ++ [ConsoleWarn "ghost"] |},
     Return tt) /\
  finishLoading "ghost" false (Some "boom") one_task = (one_task, Return tt).
Proof.
  split; [reflexivity |].
  exact (unknown_task_is_noop 1000 "ghost" 50 None None false (Some "boom")
           one_task eq_refl).
Defined.

(** On [one_task], finishing ["t1"] as a failure. *)
Lemma finishLoading_forces_terminal_state_witness :
  exists state,
    loadingStates (self one_task) !! "t1" = Some state /\
    getProgress "t1" (finishLoading "t1" false (Some "boom") one_task).1
    = 100%float /\
    getStage "t1" (finishLoading "t1" false (Some "boom") one_task).1
    = Some "error".
Proof.
  eexists. split; [reflexivity |].
  destruct (proj1 (finishLoading_forces_terminal_state "t1" false
                     (Some "boom") _ one_task eq_refl))
    as [state' [Hstored [Hprogress [Hstage _]]]].
  unfold getProgress, getStage. rewrite Hstored, Hprogress, Hstage.
  split; reflexivity.
Defined.

(** Progress values outside [0, 100] are stored clamped. *)
Example updateProgress_clamps :
  getProgress "t1" (updateProgress 1000 "t1" 150 None None one_task).1
  = 100%float /\
  getProgress "t1" (updateProgress 1000 "t1" (-10) None None one_task).1
  = 0%float.
Proof. vm_compute. split; reflexivity. Qed.

(** The task stays until the timer set by [finishLoading] runs [purge]. *)
Example finished_task_is_purged_by_the_timer :
  let done := (finishLoading "t1" true None one_task).1 in
  isLoading None done = true /\
  last (effects done) = Some (SetTimeout 1000 "t1") /\
  isLoading None (purge "t1" done).1 = false.
Proof. vm_compute. repeat split. Qed.

(** *** What [updateUI] does, by the state of the page *)

Lemma updateUI_destroyed state w :
  progressElements (self w) = None ->
  updateUI state w = (w, Throw TypeError).
Proof.
  intros Hnull. destruct w as [[states found] log]. cbn in Hnull. by subst.
Qed.

Lemma updateUI_without_bar state w found :
  progressElements (self w) = Some found ->
  (progressBar found && progressPercent found)%bool = false ->
  updateUI state w = (w, Return tt).
Proof.
  intros Hfound Hbar. destruct w as [[states pe] log]. cbn in Hfound.
  subst pe. destruct found as [c b p]. cbn in Hbar.
  destruct b, p; try discriminate; reflexivity.
Qed.

Lemma updateUI_renders state w found :
  progressElements (self w) = Some found ->
  progressBar found = true ->
  progressPercent found = true ->
  exists page name,
    updateUI state w
    = ({| self := self w;
          effects := effects w ++ SetBar (progress state) :: page
                       ++ [ConsoleLog name; StageEvent (stage state) name] |},
       Return tt) /\
    forall e, e ∈ page -> exists text remaining, e = SetMessage text remaining.
Proof.
  intros Hfound Hbar Hpercent. destruct w as [[states pe] log].
  cbn in Hfound. subst pe. destruct found as [c b p]. cbn in Hbar, Hpercent.
  subst b p. destruct c.
  - eexists [_], _. split.
    + cbn -[list_find stages]. unfold emitStageEvent, effect, modify.
      cbn -[list_find stages]. rewrite <- !app_assoc. reflexivity.
    + intros e ->%list_elem_of_singleton. eauto.
  - eexists [], _. split.
    + cbn -[list_find stages]. unfold emitStageEvent, effect, modify.
      cbn -[list_find stages]. rewrite <- !app_assoc. reflexivity.
    + intros e Hin. by apply elem_of_nil in Hin.
Qed.

(** *** What an update stores *)

Lemma ltb_leb (x y : float) :
  PrimFloat.ltb x y = true -> PrimFloat.leb x y = true.
Proof.
  rewrite ltb_spec, leb_spec. unfold SFltb, SFleb.
  by destruct (SFcompare _ _) as [[] |].
Qed.

Lemma clamp_range (value : float) :
  let clamped := Math_min 100 (Math_max 0 value) in
  if PrimFloat.is_nan value then PrimFloat.is_nan clamped = true
  else (PrimFloat.leb 0 clamped && PrimFloat.leb clamped 100)%bool = true.
Proof.
  cbn zeta. unfold Math_max.
  change (PrimFloat.is_nan 0) with false. cbn [orb].
  destruct (PrimFloat.is_nan value) eqn:Hnan; [reflexivity |].
  destruct (PrimFloat.ltb 0 value) eqn:Hpos; [| reflexivity].
  unfold Math_min. change (PrimFloat.is_nan 100) with false. cbn [orb].
  rewrite Hnan. destruct (PrimFloat.ltb value 100) eqn:Hlt; [| reflexivity].
  by rewrite !ltb_leb.
Qed.

Lemma updateProgress_stored now task value msg stageArg state (w : World) :
  loadingStates (self w) !! task = Some state ->
  exists state',
    self (updateProgress now task value msg stageArg w).1
    = {| loadingStates := <[task := state']> (loadingStates (self w));
         progressElements := progressElements (self w) |} /\
    taskId state' = taskId state /\
    startTime state' = startTime state /\
    finished state' = finished state /\
    message state'
    = match msg with
      | Some text => if decide (text = "") then message state else text
      | None => message state
      end /\
    stage state' = default default_stage stageArg /\
    progress state' = Math_min 100 (Math_max 0 value).
Proof.
  intros Htracked. unfold updateProgress. rewrite Htracked.
  eexists. split.
  - unfold bind at 1. cbn [modify_states modify].
    rewrite updateUI_self. reflexivity.
  - cbn. repeat split. destruct msg as [text |]; [| reflexivity].
    unfold truthy_string.
    case_bool_decide; [by rewrite decide_True | by rewrite decide_False].
Qed.

(** The progress stored by [updateProgress] for a tracked task lies between
    0 and 100, whatever number is given, except that [NaN] is stored as
    [NaN]: [Math.min] and [Math.max] do not clamp it. *)
Theorem updateProgress_clamps_progress now task value msg stageArg state
    (w : World) :
  loadingStates (self w) !! task = Some state ->
  exists state',
    loadingStates (self (updateProgress now task value msg stageArg w).1)
      !! task = Some state' /\
    if PrimFloat.is_nan value then PrimFloat.is_nan (progress state') = true
    else (PrimFloat.leb 0 (progress state')
          && PrimFloat.leb (progress state') 100)%bool = true.
Proof.
  intros Htracked.
  destruct (updateProgress_stored now task value msg stageArg state w
              Htracked) as (state' & -> & _ & _ & _ & _ & _ & Hprogress).
  exists state'. split; [apply lookup_insert_eq |].
  rewrite Hprogress. apply clamp_range.
Qed.

(** An update of a tracked task changes that task only, and of it neither
    the id, the start time nor the finished mark. The message is replaced
    by a non-empty message and kept otherwise: an empty string given as
    message does not clear it. *)
Theorem updateProgress_touches_one_task now task value msg stageArg state
    (w : World) :
  loadingStates (self w) !! task = Some state ->
  let w' := (updateProgress now task value msg stageArg w).1 in
  (exists state',
     loadingStates (self w') !! task = Some state' /\
     taskId state' = taskId state /\
     startTime state' = startTime state /\
     finished state' = finished state /\
     message state'
     = match msg with
       | Some text => if decide (text = "") then message state else text
       | None => message state
       end) /\
  (forall other, other <> task ->
     loadingStates (self w') !! other = loadingStates (self w) !! other) /\
  progressElements (self w') = progressElements (self w).
Proof.
  intros Htracked w'. subst w'.
  destruct (updateProgress_stored now task value msg stageArg state w
              Htracked)
    as (state' & -> & Hid & Hstart & Hfinished & Hmessage & _ & _).
  cbn [loadingStates progressElements]. split; [| split].
  - exists state'. split; [apply lookup_insert_eq | done].
  - intros other Hne. by rewrite lookup_insert_ne.
  - reflexivity.
Qed.

(** *** What an update and a finish put on the page *)

Lemma updateProgress_run now task value msg stageArg state (w : World) :
  loadingStates (self w) !! task = Some state ->
  exists state',
    updateProgress now task value msg stageArg w
    = updateUI state'
        {| self := {| loadingStates := <[task := state']>
                                         (loadingStates (self w));
                      progressElements := progressElements (self w) |};
           effects := effects w |} /\
    stage state' = default default_stage stageArg /\
    progress state' = Math_min 100 (Math_max 0 value).
Proof.
  intros Htracked. unfold updateProgress. rewrite Htracked.
  eexists. split; [reflexivity |]. split; reflexivity.
Qed.

Lemma finishLoading_run task success msg state (w : World) :
  loadingStates (self w) !! task = Some state ->
  exists state',
    finishLoading task success msg w
    = (updateUI state' ;;;
       effect (SetTimeout (if success then 1000 else 3000) task))
        {| self := {| loadingStates := <[task := state']>
                                         (loadingStates (self w));
                      progressElements := progressElements (self w) |};
           effects := effects w |} /\
    finished state' = true.
Proof.
  intros Htracked. unfold finishLoading. rewrite Htracked.
  eexists. split; reflexivity.
Qed.

(** With the progress bar and the percentage on the page, every update of
    a tracked task sets the bar to the clamped progress and dispatches one
    [loading:stage] event, last, carrying the stage given or, without one,
    ['processing']; in between it writes at most the message. *)
Theorem updateProgress_dispatches_stage_event now task value msg stageArg
    state found (w : World) :
  loadingStates (self w) !! task = Some state ->
  progressElements (self w) = Some found ->
  progressBar found = true ->
  progressPercent found = true ->
  exists page name,
    (updateProgress now task value msg stageArg w).2 = Return tt /\
    effects (updateProgress now task value msg stageArg w).1
    = effects w ++ SetBar (Math_min 100 (Math_max 0 value)) :: page
        ++ [ConsoleLog name;
            StageEvent (default default_stage stageArg) name] /\
    forall e, e ∈ page -> exists text remaining, e = SetMessage text remaining.
Proof.
  intros Htracked Hfound Hbar Hpercent.
  destruct (updateProgress_run now task value msg stageArg state w Htracked)
    as (state' & -> & Hstage & Hprogress).
  match goal with |- context [updateUI state' ?w1] =>
    destruct (updateUI_renders state' w1 found Hfound Hbar Hpercent)
      as (page & name & -> & Hpage)
  end.
  exists page, name. cbn [fst snd effects]. rewrite Hstage, Hprogress.
  by repeat split.
Qed.

(** Without the progress bar or without the percentage on the page, nothing
    is rendered and no [loading:stage] event is dispatched: an update of a
    tracked task leaves no trace outside the tracker, and a finish only
    sets its timer. *)
Theorem without_bar_nothing_is_rendered now task value msg stageArg success
    msg' state found (w : World) :
  loadingStates (self w) !! task = Some state ->
  progressElements (self w) = Some found ->
  (progressBar found && progressPercent found)%bool = false ->
  updateProgress now task value msg stageArg w
  = ({| self := self (updateProgress now task value msg stageArg w).1;
        effects := effects w |}, Return tt) /\
  effects (finishLoading task success msg' w).1
  = effects w ++ [SetTimeout (if success then 1000 else 3000) task].
Proof.
  intros Htracked Hfound Hbar. split.
  - destruct (updateProgress_run now task value msg stageArg state w Htracked)
      as (state' & -> & _).
    by rewrite (updateUI_without_bar _ _ found).
  - destruct (finishLoading_run task success msg' state w Htracked)
      as (state' & -> & _).
    unfold bind. by rewrite (updateUI_without_bar _ _ found).
Qed.

(** A finish of a tracked task, on a manager that has its page elements,
    returns normally and sets exactly one timer, after everything else: the
    purge of the task in 1000 ms after a success, in 3000 ms after a
    failure. *)
Theorem finishLoading_schedules_purge task success msg state found
    (w : World) :
  loadingStates (self w) !! task = Some state ->
  progressElements (self w) = Some found ->
  exists page,
    (finishLoading task success msg w).2 = Return tt /\
    effects (finishLoading task success msg w).1
    = effects w ++ page
        ++ [SetTimeout (if success then 1000 else 3000) task] /\
    forall delay t, SetTimeout delay t ∉ page.
Proof.
  intros Htracked Hfound.
  destruct (finishLoading_run task success msg state w Htracked)
    as (state' & -> & _).
  destruct (progressBar found && progressPercent found)%bool eqn:Hbar.
  - apply andb_true_iff in Hbar as [Hbar Hpercent]. unfold bind.
    match goal with |- context [updateUI state' ?w1] =>
      destruct (updateUI_renders state' w1 found Hfound Hbar Hpercent)
        as (page & name & Hui & Hpage)
    end.
    exists (SetBar (progress state') :: page
            ++ [ConsoleLog name; StageEvent (stage state') name]).
    rewrite Hui. cbn [fst snd effects effect modify].
    split; [reflexivity |]. split.
    + by rewrite <- !app_assoc.
    + intros delay t [Heq | Hin]%elem_of_cons; [discriminate |].
      apply elem_of_app in Hin as [Hin | Hin].
      * destruct (Hpage _ Hin) as (? & ? & ?). discriminate.
      * repeat (apply elem_of_cons in Hin as [Heq | Hin]; [discriminate |]).
        by apply elem_of_nil in Hin.
  - exists []. unfold bind. rewrite (updateUI_without_bar _ _ found)
      by assumption.
    split; [reflexivity |]. split; [reflexivity |].
    intros delay t Hin. by apply elem_of_nil in Hin.
Qed.

(** On a manager whose page elements are gone ([destroy] sets
    [progressElements] to [null]), [startLoading] throws a [TypeError] after
    it has stored the task, and [finishLoading] of a tracked task throws
    after it has marked the task finished and before it sets its timer: the
    task is never purged. *)
Theorem destroyed_manager_throws now task msg success msg' state (w : World) :
  progressElements (self w) = None ->
  ((startLoading now task msg w).2 = Throw TypeError /\
   is_Some (loadingStates (self (startLoading now task msg w).1) !! task)) /\
  (loadingStates (self w) !! task = Some state ->
   (finishLoading task success msg' w).2 = Throw TypeError /\
   effects (finishLoading task success msg' w).1 = effects w /\
   exists state',
     loadingStates (self (finishLoading task success msg' w).1) !! task
     = Some state' /\ finished state' = true).
Proof.
  intros Hnull. split.
  - unfold startLoading. unfold bind. cbn [modify_states modify].
    rewrite updateUI_destroyed by exact Hnull.
    cbn [fst snd self loadingStates]. split; [reflexivity |].
    rewrite lookup_insert_eq. eauto.
  - intros Htracked.
    destruct (finishLoading_run task success msg' state w Htracked)
      as (state' & -> & Hfinished).
    unfold bind. rewrite updateUI_destroyed by exact Hnull.
    cbn [fst snd self loadingStates effects].
    split; [reflexivity |]. split; [reflexivity |].
    exists state'. by rewrite lookup_insert_eq.
Qed.

(** *** The purge *)

(** The function run by the timer removes whatever is stored under the
    task id and nothing else; when no task is left and the page has the
    container, it hides the container, and otherwise it does nothing
    further. *)
Theorem purge_removes_task task found (w : World) :
  progressElements (self w) = Some found ->
  let r := purge task w in
  r.2 = Return tt /\
  loadingStates (self r.1) = delete task (loadingStates (self w)) /\
  effects r.1
  = effects w
      ++ (if (bool_decide (size (delete task (loadingStates (self w))) = 0)
              && container found)%bool
          then [HideContainer] else []).
Proof.
  intros Hfound r. subst r. destruct w as [[states pe] log].
  cbn in Hfound. subst pe. unfold purge, bind, gets, modify_states, modify.
  cbn [self loadingStates progressElements effects].
  case_bool_decide as Hsize; cbn [andb].
  - destruct found as [[] b p]; cbn; by rewrite ?app_nil_r.
  - cbn. by rewrite app_nil_r.
Qed.

(** The timer set by [finishLoading] is not taken back by a new
    [startLoading]: a task that is started again under the same id before
    the timer runs is tracked, and is removed when the timer runs. *)
Theorem stale_purge_removes_restarted_task now task success msg msg'
    (w : World) :
  task <> "" ->
  let finished_ := (finishLoading task success msg w).1 in
  let restarted := (startLoading now task msg' finished_).1 in
  isLoading (Some task) restarted = true /\
  isLoading (Some task) (purge task restarted).1 = false.
Proof.
  intros Hname finished_ restarted. unfold isLoading, truthy_string.
  rewrite !bool_decide_false by exact Hname. cbn [negb]. split.
  - apply bool_decide_eq_true. subst restarted.
    destruct (startLoading_tracks now task msg' finished_) as [state ->].
    eauto.
  - apply bool_decide_eq_false. intros [state Hstate].
    revert Hstate. unfold purge.
    unfold bind at 1. cbn [modify_states modify].
    match goal with |- context [bind ?c ?k ?w1] =>
      assert (Hself : self (bind c k w1).1 = self w1)
    end.
    { unfold bind, gets. cbn [fst snd].
      case_bool_decide; [| reflexivity].
      unfold hideLoadingContainer, bind, elements.
      destruct (progressElements _) as [[[] b p] |]; reflexivity. }
    rewrite Hself. cbn [self loadingStates]. by rewrite lookup_delete_eq.
Qed.

(** *** Runs *)

Lemma last_app_two {A} (l : list A) a b : last (l ++ [a; b]) = Some b.
Proof.
  change [a; b] with ([a] ++ [b]). rewrite app_assoc. apply last_snoc.
Defined.

Definition no_bar : ProgressElements :=
  {| container := true; progressBar := false; progressPercent := true |}.

Definition one_task_no_bar : World :=
  (startLoading 0 "t1" (Some "uploading") (new_LoadingStateManager no_bar)).1.

(** A manager that was destroyed ([progressElements] is [null]) and on
    which the task of [one_task] was started afterwards. *)
Definition destroyed : World :=
  {| self := {| loadingStates := loadingStates (self one_task);
                progressElements := None |};
     effects := [] |}.

(** On [one_task], a progress of 150 is stored as 100. *)
Lemma updateProgress_clamps_progress_witness :
  exists state,
    loadingStates (self one_task) !! "t1" = Some state /\
    exists state',
      loadingStates
        (self (updateProgress 1000 "t1" 150 None None one_task).1) !! "t1"
      = Some state' /\
      (PrimFloat.leb 0 (progress state')
       && PrimFloat.leb (progress state') 100)%bool = true.
Proof.
  eexists. split; [reflexivity |].
  exact (updateProgress_clamps_progress 1000 "t1" 150 None None _ one_task
           eq_refl).
Defined.

(** On [one_task], an empty message keeps ['uploading']. *)
Lemma updateProgress_touches_one_task_witness :
  exists state,
    loadingStates (self one_task) !! "t1" = Some state /\
    exists state',
      loadingStates
        (self (updateProgress 1000 "t1" 50 (Some "") None one_task).1) !! "t1"
      = Some state' /\
      message state' = "uploading".
Proof.
  eexists. split; [reflexivity |].
  destruct (proj1 (updateProgress_touches_one_task 1000 "t1" 50 (Some "")
                     None _ one_task eq_refl))
    as (state' & Hstored & _ & _ & _ & Hmessage).
  exists state'. split; [exact Hstored | exact Hmessage].
Defined.

(** On [one_task], an update to the stage ['transcribing']. *)
Lemma updateProgress_dispatches_stage_event_witness :
  exists state,
    loadingStates (self one_task) !! "t1" = Some state /\
    progressElements (self one_task) = Some all_found /\
    exists name,
      last (effects (updateProgress 1000 "t1" 50 None (Some "transcribing")
                       one_task).1)
      = Some (StageEvent "transcribing" name).
Proof.
  eexists. split; [reflexivity |]. split; [reflexivity |].
  destruct (updateProgress_dispatches_stage_event 1000 "t1" 50 None
              (Some "transcribing") _ all_found one_task eq_refl eq_refl
              eq_refl eq_refl) as (page & name & _ & Heffects & _).
  exists name. rewrite Heffects.
  change (SetBar ?x :: page ++ ?l) with ((SetBar x :: page) ++ l).
  rewrite app_assoc. apply last_app_two.
Defined.

(** The name that goes with the code: the entry of [stages], the code
    itself when [stages] has none, and for a code that [Object.prototype]
    answers, such as ['constructor'], the inherited function. *)
Example stage_names :
  let dispatched code :=
    last (effects (updateProgress 1000 "t1" 50 None (Some code) one_task).1) in
  dispatched "transcribing"
  = Some (StageEvent "transcribing" (VStr "語音轉錄")) /\
  dispatched "uploading" = Some (StageEvent "uploading" (VStr "uploading")) /\
  dispatched "constructor" = Some (StageEvent "constructor" (VRef 1)) /\
  dispatched "__proto__"
  = Some (StageEvent "__proto__" (VRef Object_prototype)).
Proof. vm_compute. repeat split. Qed.

(** On [one_task_no_bar]. *)
Lemma without_bar_nothing_is_rendered_witness :
  exists state,
    loadingStates (self one_task_no_bar) !! "t1" = Some state /\
    progressElements (self one_task_no_bar) = Some no_bar /\
    effects (finishLoading "t1" true None one_task_no_bar).1
    = effects one_task_no_bar ++ [SetTimeout 1000 "t1"].
Proof.
  eexists. split; [reflexivity |]. split; [reflexivity |].
  exact (proj2 (without_bar_nothing_is_rendered 1000 "t1" 50 None None true
                  None _ no_bar one_task_no_bar eq_refl eq_refl eq_refl)).
Defined.

(** On [one_task], finished as a failure. *)
Lemma finishLoading_schedules_purge_witness :
  exists state,
    loadingStates (self one_task) !! "t1" = Some state /\
    progressElements (self one_task) = Some all_found /\
    last (effects (finishLoading "t1" false None one_task).1)
    = Some (SetTimeout 3000 "t1").
Proof.
  eexists. split; [reflexivity |]. split; [reflexivity |].
  destruct (finishLoading_schedules_purge "t1" false None _ all_found
              one_task eq_refl eq_refl) as (page & _ & Heffects & _).
  rewrite Heffects, !app_assoc. apply last_snoc.
Defined.

(** On [destroyed]. *)
Lemma destroyed_manager_throws_witness :
  progressElements (self destroyed) = None /\
  (startLoading 5 "t2" None destroyed).2 = Throw TypeError.
Proof.
  split; [reflexivity |].
  exact (proj1 (proj1 (destroyed_manager_throws 5 "t2" None true None
                         (mkLoadingState "" "" 0 "" 0 None false) destroyed
                         eq_refl))).
Defined.

(** On [one_task]: its only task goes and the container is hidden. *)
Lemma purge_removes_task_witness :
  progressElements (self one_task) = Some all_found /\
  loadingStates (self (purge "t1" one_task).1) !! "t1" = None /\
  last (effects (purge "t1" one_task).1) = Some HideContainer.
Proof.
  split; [reflexivity |].
  destruct (purge_removes_task "t1" all_found one_task eq_refl)
    as (_ & Hstates & Heffects).
  split.
  - rewrite Hstates. apply lookup_delete_eq.
  - rewrite Heffects. reflexivity.
Defined.

(** On [one_task]. *)
Lemma stale_purge_removes_restarted_task_witness :
  "t1" <> "" /\
  isLoading (Some "t1")
    (purge "t1"
       (startLoading 7 "t1" None
          (finishLoading "t1" true None one_task).1).1).1
  = false.
Proof.
  split; [discriminate |].
  exact (proj2 (stale_purge_removes_restarted_task 7 "t1" true None None
                  one_task ltac:(discriminate))).
Defined.

End LoadingStateManager.

(** ** WebSocketManager

    The connection life cycle and the outbound path: [connect], the [open],
    [error] and [close] handlers, the heartbeat, [send], [close] and
    [getState]. Inbound frames ([onmessage], [handleMessage]) only read the
    handler registry and are not embedded. *)

Module WebSocketManager.
Import Js.

(** [WebSocket.readyState] *)
Inductive ReadyState : Type := CONNECTING | OPEN | CLOSING | CLOSED.

#[global] Instance ReadyState_eq_dec : EqDecision ReadyState.
Proof. solve_decision. Defined.

(** The object given to [send], by its members. *)
Definition Frame : Type := list (string * Value).

(** The fields of the manager. [socket] is [null] or one of the sockets of
    the browser, known by its handle; timer identifiers are positive. *)
Record Self : Type := mkSelf {
  clientId : string;
  socket : option nat;
  reconnectInterval : N;
  heartbeatInterval : N;
  heartbeatTimer : option nat;
  messageHandlers : gmap string (list nat);
  isConnected : bool
}.

(** What [setTimeout] and [setInterval] were given. *)
Inductive Timer : Type :=
| Reconnect (delay : N)
| Heartbeat (interval : N).

Inductive Effect : Type :=
| ConsoleLog (text : string)
| ConsoleWarn (text : string)
| ConsoleError (text : string)
| Transmit (handle : nat) (frame : Frame)
| WindowEvent (name : string).

(** The manager and the part of the browser it works on: every socket that
    [connect] has created, with its ready state (the four handlers of each
    belong to this manager), and the timers, the timer [n] at index
    [n - 1], [None] once cleared or run. *)
Record World : Type := mkWorld {
  self : Self;
  sockets : list ReadyState;
  timers : list (option Timer);
  effects : list Effect
}.

(** [config.member || fallback]: a member that is missing or zero gives the
    fallback. *)
Definition or_default (member : option N) (fallback : N) : N :=
  match member with
  | Some n => if bool_decide (n = 0%N) then fallback else n
  | None => fallback
  end.

Definition new_WebSocketManager (client : string)
  (reconnect heartbeat : option N) : World :=
  {| self := {| clientId := client; socket := None;
                reconnectInterval := or_default reconnect 3000;
                heartbeatInterval := or_default heartbeat 30000;
                heartbeatTimer := None; messageHandlers := ∅;
                isConnected := false |};
     sockets := []; timers := []; effects := [] |}.

Definition TypeError : Value := VStr "TypeError".

Definition effect (e : Effect) : M World unit :=
  modify (fun w =>
    {| self := self w; sockets := sockets w; timers := timers w;
       effects := effects w ++ [e] |}).

Definition modify_self (f : Self -> Self) : M World unit :=
  modify (fun w =>
    {| self := f (self w); sockets := sockets w; timers := timers w;
       effects := effects w |}).

Definition set_socket (h : option nat) (s : Self) : Self :=
  {| clientId := clientId s; socket := h;
     reconnectInterval := reconnectInterval s;
     heartbeatInterval := heartbeatInterval s;
     heartbeatTimer := heartbeatTimer s;
     messageHandlers := messageHandlers s; isConnected := isConnected s |}.

Definition set_isConnected (b : bool) (s : Self) : Self :=
  {| clientId := clientId s; socket := socket s;
     reconnectInterval := reconnectInterval s;
     heartbeatInterval := heartbeatInterval s;
     heartbeatTimer := heartbeatTimer s;
     messageHandlers := messageHandlers s; isConnected := b |}.

Definition set_heartbeatTimer (t : option nat) (s : Self) : Self :=
  {| clientId := clientId s; socket := socket s;
     reconnectInterval := reconnectInterval s;
     heartbeatInterval := heartbeatInterval s;
     heartbeatTimer := t;
     messageHandlers := messageHandlers s; isConnected := isConnected s |}.

Definition set_messageHandlers (m : gmap string (list nat)) (s : Self) : Self :=
  {| clientId := clientId s; socket := socket s;
     reconnectInterval := reconnectInterval s;
     heartbeatInterval := heartbeatInterval s;
     heartbeatTimer := heartbeatTimer s;
     messageHandlers := m; isConnected := isConnected s |}.

(** [socket.readyState] *)
Definition readyState (h : nat) (w : World) : ReadyState :=
  default CLOSED (sockets w !! h).

Definition set_readyState (h : nat) (r : ReadyState) : M World unit :=
  modify (fun w =>
    {| self := self w; sockets := <[h := r]> (sockets w);
       timers := timers w; effects := effects w |}).

(** [new WebSocket(wsUrl)]: a further socket, connecting. *)
Definition new_WebSocket : M World nat :=
  fun w =>
    ({| self := self w; sockets := sockets w ++ [CONNECTING];
        timers := timers w; effects := effects w |},
     Return (length (sockets w))).

(** [setTimeout] and [setInterval] return the identifier of the timer. *)
Definition set_timer (t : Timer) : M World nat :=
  fun w =>
    ({| self := self w; sockets := sockets w;
        timers := timers w ++ [Some t]; effects := effects w |},
     Return (S (length (timers w)))).

Definition clear_timer (id : nat) : M World unit :=
  modify (fun w =>
    {| self := self w; sockets := sockets w;
       timers := <[pred id := None]> (timers w); effects := effects w |}).

(** [emit]: a [CustomEvent] named [websocket:<event>] on [window]. *)
Definition emit (event : string) : M World unit :=
  effect (WindowEvent ("websocket:" +:+ event)).

Definition connect : M World unit :=
  effect (ConsoleLog "正在建立 WebSocket 連接:") ;;;
  h <- new_WebSocket ;;
  modify_self (set_socket (Some h)).

Definition on (type : string) (handler : nat) : M World unit :=
  modify_self (fun s =>
    let hs :=
      match messageHandlers s !! type with
      | None => <[type := []]> (messageHandlers s)
      | Some _ => messageHandlers s
      end in
    set_messageHandlers
      (<[type := default [] (hs !! type) ++ [handler]]> hs) s).

Definition off (type : string) (handler : nat) : M World unit :=
  modify_self (fun s =>
    match messageHandlers s !! type with
    | Some handlers =>
      set_messageHandlers
        (<[type := remove_first handlers handler]> (messageHandlers s)) s
    | None => s
    end).

Definition not_connected : string := "WebSocket 未連接，無法發送訊息".

(** [send]: the flag first, then the ready state of [this.socket]; reading
    a member of [null] throws. *)
Definition send (data : Frame) : M World unit :=
  fun w =>
    if isConnected (self w) then
      match socket (self w) with
      | None => (w, Throw TypeError)
      | Some h =>
        if bool_decide (readyState h w = OPEN)
        then effect (Transmit h data) w
        else effect (ConsoleWarn not_connected) w
      end
    else effect (ConsoleWarn not_connected) w.

Definition stopHeartbeat : M World unit :=
  fun w =>
    match heartbeatTimer (self w) with
    | Some id =>
      (clear_timer id ;;; modify_self (set_heartbeatTimer None)) w
    | None => (w, Return tt)
    end.

Definition startHeartbeat : M World unit :=
  stopHeartbeat ;;;
  interval <- gets (fun w => heartbeatInterval (self w)) ;;
  id <- set_timer (Heartbeat interval) ;;
  modify_self (set_heartbeatTimer (Some id)).

(** The function given to [setInterval]. *)
Definition heartbeat_tick (now : float) : M World unit :=
  fun w =>
    if isConnected (self w)
    then send [("type", VStr "ping"); ("timestamp", VNum now)] w
    else (w, Return tt).

(** [socket.close()] of the browser: a socket that is connecting or open
    starts closing. *)
Definition socket_close (h : nat) : M World unit :=
  fun w =>
    match readyState h w with
    | CONNECTING | OPEN => set_readyState h CLOSING w
    | CLOSING | CLOSED => (w, Return tt)
    end.

Definition close : M World unit :=
  stopHeartbeat ;;;
  (fun w =>
     match socket (self w) with
     | Some h => (socket_close h ;;; modify_self (set_socket None)) w
     | None => (w, Return tt)
     end) ;;;
  modify_self (set_isConnected false) ;;;
  modify_self (set_messageHandlers ∅).

Definition getState (w : World) : string :=
  match socket (self w) with
  | None => "CLOSED"
  | Some h =>
    match readyState h w with
    | CONNECTING => "CONNECTING"
    | OPEN => "OPEN"
    | CLOSING => "CLOSING"
    | CLOSED => "CLOSED"
    end
  end.

(** The handlers that [connect] installs on a socket. *)
Definition onopen : M World unit :=
  effect (ConsoleLog "WebSocket 連接已建立") ;;;
  modify_self (set_isConnected true) ;;;
  startHeartbeat ;;;
  emit "open".

Definition onerror : M World unit :=
  effect (ConsoleError "WebSocket 錯誤:") ;;;
  modify_self (set_isConnected false) ;;;
  emit "error".

Definition onclose : M World unit :=
  effect (ConsoleLog "WebSocket 連接已關閉:") ;;;
  modify_self (set_isConnected false) ;;;
  stopHeartbeat ;;;
  emit "close" ;;;
  delay <- gets (fun w => reconnectInterval (self w)) ;;
  set_timer (Reconnect delay) ;;;
  ret tt.

(** One turn of the event loop: a call made by the application, or an event
    delivered by the browser. *)
Inductive Action : Type :=
| CallConnect
| CallSend (data : Frame)
| CallClose
| SocketOpens (h : nat)
| SocketFails (h : nat)
| SocketCloses (h : nat)
| TimerFires (id : nat) (now : float).

(** [None] when the browser cannot deliver the event in that state: a socket
    opens only while it is connecting, closes once, and a timer runs only
    while it is set. *)
Definition step (a : Action) (w : World) : option (World * Completion unit) :=
  match a with
  | CallConnect => Some (connect w)
  | CallSend data => Some (send data w)
  | CallClose => Some (close w)
  | SocketOpens h =>
    if bool_decide (sockets w !! h = Some CONNECTING)
    then Some ((set_readyState h OPEN ;;; onopen) w) else None
  | SocketFails h =>
    match sockets w !! h with
    | Some CONNECTING | Some OPEN => Some (onerror w)
    | _ => None
    end
  | SocketCloses h =>
    match sockets w !! h with
    | Some CONNECTING | Some OPEN | Some CLOSING =>
      Some ((set_readyState h CLOSED ;;; onclose) w)
    | _ => None
    end
  | TimerFires id now =>
    match timers w !! pred id with
    | Some (Some (Reconnect _)) =>
      if bool_decide (id = 0) then None
      else Some ((clear_timer id ;;;
                  effect (ConsoleLog "嘗試重新連接 WebSocket...") ;;; connect) w)
    | Some (Some (Heartbeat _)) =>
      if bool_decide (id = 0) then None else Some (heartbeat_tick now w)
    | _ => None
    end
  end.

(** The turns run one after the other; an exception ends its own turn
    only. *)
Fixpoint run (actions : list Action) (w : World) : option World :=
  match actions with
  | [] => Some w
  | a :: rest =>
    match step a w with
    | Some (w', _) => run rest w'
    | None => None
    end
  end.

(** *** [send] while the connection is not open *)

(** As long as a raised [isConnected] flag comes with a socket, a [send]
    in any state but [OPEN] transmits nothing, writes one warning and
    returns. *)
Lemma send_when_not_open_drops data (w : World) :
  getState w <> "OPEN" ->
  (isConnected (self w) = true -> socket (self w) <> None) ->
  send data w
  = ({| self := self w; sockets := sockets w; timers := timers w;
        effects := effects w ++ [ConsoleWarn not_connected] |},
     Return tt).
Proof.
  intros Hstate Hsocket. unfold send, getState in *.
  destruct (isConnected (self w)); [| reflexivity].
  destruct (socket (self w)) as [h |]; [| by destruct Hsocket].
  destruct (readyState h w); try reflexivity. by destruct Hstate.
Qed.

Lemma send_with_flag_down_drops data (w : World) :
  isConnected (self w) = false ->
  send data w
  = ({| self := self w; sockets := sockets w; timers := timers w;
        effects := effects w ++ [ConsoleWarn not_connected] |},
     Return tt).
Proof. intros Hflag. unfold send. by rewrite Hflag. Qed.

(** With the flag raised and no socket, [send] throws. *)
Lemma send_without_socket_throws data (w : World) :
  isConnected (self w) = true ->
  socket (self w) = None ->
  send data w = (w, Throw TypeError).
Proof. intros Hflag Hsocket. unfold send. by rewrite Hflag, Hsocket. Qed.

(** *** Concrete runs *)

Definition fresh_manager : World := new_WebSocketManager "client-1" None None.

(** The application connects, closes, and connects again; the close event
    of the first socket then arrives and its reconnect timer runs, which
    makes a third socket and leaves the second one behind, still
    connecting; the application closes; the second socket opens. *)
Definition restart : list Action :=
  [CallConnect; CallClose; CallConnect; SocketCloses 0; TimerFires 1 0;
   CallClose; SocketOpens 1].

(** Two calls of [connect] in a row, a [close], and the first socket
    opens. *)
Definition connect_twice : list Action :=
  [CallConnect; CallConnect; CallClose; SocketOpens 0].

Definition ping : Frame := [("type", VStr "ping")].

(** C6 (the code departs from the claim). After the turns of [restart], in
    each of which the application calls [connect] only on a manager whose
    state reads [CLOSED], the state reads [CLOSED] again and [send] throws
    a [TypeError] instead of dropping the frame with a warning: [onopen] of
    the socket left behind has raised [isConnected] while [this.socket] is
    [null]. The same happens after [connect_twice]. *)
Theorem send_on_closed_manager_throws :
  (exists w,
     run restart fresh_manager = Some w /\
     getState w = "CLOSED" /\
     send ping w = (w, Throw TypeError)) /\
  (getState fresh_manager = "CLOSED" /\
   exists v,
     run (take 2 restart) fresh_manager = Some v /\ getState v = "CLOSED") /\
  (exists w,
     run connect_twice fresh_manager = Some w /\
     getState w = "CLOSED" /\
     send ping w = (w, Throw TypeError)).
Proof.
  split; [| split].
  - eexists. split; [vm_compute; reflexivity |]. split; reflexivity.
  - split; [reflexivity |].
    eexists. split; [vm_compute; reflexivity |]. reflexivity.
  - eexists. split; [vm_compute; reflexivity |]. split; reflexivity.
Qed.

(** Before the first [connect], and while the only socket is connecting,
    the frame is dropped with a warning. *)
Example send_before_open_is_dropped :
  (send ping fresh_manager).2 = Return tt /\
  effects (send ping fresh_manager).1 = [ConsoleWarn not_connected] /\
  (exists w,
     run [CallConnect] fresh_manager = Some w /\
     getState w = "CONNECTING" /\
     (send ping w).2 = Return tt /\
     last (effects (send ping w).1) = Some (ConsoleWarn not_connected)).
Proof.
  split; [reflexivity |]. split; [reflexivity |].
  eexists. split; [vm_compute; reflexivity |]. repeat split.
Qed.

(** Once the socket is open the frame goes out. *)
Example send_when_open_transmits :
  exists w,
    run [CallConnect; SocketOpens 0] fresh_manager = Some w /\
    getState w = "OPEN" /\
    last (effects (send ping w).1) = Some (Transmit 0 ping).
Proof. eexists. split; [vm_compute; reflexivity |]. split; reflexivity. Qed.

(** *** The heartbeat timer

    What the manager knows of its heartbeat, and the timers of the
    browser. *)
Definition beat (w : World) : option nat * list (option Timer) :=
  (heartbeatTimer (self w), timers w).

(** The timers once [stopHeartbeat] has run. *)
Definition stopped (w : World) : list (option Timer) :=
  match heartbeatTimer (self w) with
  | Some id => <[pred id := None]> (timers w)
  | None => timers w
  end.

Lemma connect_beat w : beat (connect w).1 = beat w.
Proof. reflexivity. Qed.

Lemma send_beat data w : beat (send data w).1 = beat w.
Proof. unfold send. by repeat case_match. Qed.

Lemma close_beat w : beat (close w).1 = (None, stopped w).
Proof.
  destruct w as [[cid sk ri hi ht mh ic] socks tms effs].
  unfold close, stopped, bind, stopHeartbeat, socket_close, readyState. cbn [self heartbeatTimer socket].
  destruct ht, sk as [h|]; cbn; try reflexivity.
  all: destruct (socks !! h) as [[]|]; reflexivity.
Qed.

Lemma onopen_beat h w :
  beat ((set_readyState h OPEN ;;; onopen) w).1
  = (Some (S (length (timers w))), stopped w ++ [Some (Heartbeat (heartbeatInterval (self w)))]).
Proof.
  destruct w as [[cid sk ri hi ht mh ic] socks tms effs].
  unfold stopped. cbn [self heartbeatTimer]. destruct ht; cbn.
  - unfold beat. cbn. by rewrite length_insert.
  - reflexivity.
Qed.

Lemma onclose_beat h w :
  beat ((set_readyState h CLOSED ;;; onclose) w).1
  = (None, stopped w ++ [Some (Reconnect (reconnectInterval (self w)))]).
Proof.
  destruct w as [[cid sk ri hi ht mh ic] socks tms effs].
  unfold stopped. cbn [self heartbeatTimer]. destruct ht; reflexivity.
Qed.

Lemma onerror_beat w : beat (onerror w).1 = beat w.
Proof. reflexivity. Qed.

Lemma reconnect_beat id w :
  beat ((clear_timer id ;;; effect (ConsoleLog "嘗試重新連接 WebSocket...") ;;; connect) w).1
  = (heartbeatTimer (self w), <[pred id := None]> (timers w)).
Proof. reflexivity. Qed.

Lemma tick_beat now w : beat (heartbeat_tick now w).1 = beat w.
Proof. unfold heartbeat_tick. case_match; [apply send_beat | reflexivity]. Qed.

(** Every heartbeat timer that is set is the one the manager holds. *)
Definition sound (b : option nat * list (option Timer)) : Prop :=
  forall i interval,
    b.2 !! i = Some (Some (Heartbeat interval)) -> b.1 = Some (S i).

Definition one_heartbeat (w : World) : Prop := sound (beat w).

Lemma stopped_length w : length (stopped w) = length (timers w).
Proof. unfold stopped. case_match; [apply length_insert | reflexivity]. Qed.

Lemma stopped_quiet w :
  one_heartbeat w ->
  forall i interval, stopped w !! i <> Some (Some (Heartbeat interval)).
Proof.
  unfold one_heartbeat, sound, beat, stopped. cbn [fst snd].
  intros Hinv i t Hl. destruct (heartbeatTimer (self w)) as [id |].
  - destruct (decide (i = pred id)) as [-> | Hne].
    + destruct (decide (pred id < length (timers w))) as [Hlt | Hge].
      * by rewrite list_lookup_insert_eq in Hl.
      * rewrite list_insert_ge in Hl by lia.
        apply lookup_lt_Some in Hl. lia.
    + rewrite list_lookup_insert_ne in Hl by done.
      apply Hinv in Hl. injection Hl as ->. by cbn in Hne.
  - by apply Hinv in Hl.
Qed.

Lemma sound_restarted w interval :
  one_heartbeat w ->
  sound (Some (S (length (timers w))), stopped w ++ [Some (Heartbeat interval)]).
Proof.
  intros Hinv i t. cbn [fst snd]. intros Hl.
  apply lookup_app_Some in Hl as [Hl | [Hge Hl]].
  - by apply stopped_quiet in Hl.
  - rewrite stopped_length in Hge, Hl.
    destruct (i - length (timers w)) as [| k] eqn:Hk; [| done].
    do 2 f_equal. lia.
Qed.

Lemma sound_stopped w timer :
  one_heartbeat w ->
  (forall interval, timer <> Some (Heartbeat interval)) ->
  sound (None, stopped w ++ [timer]) /\ sound (None, stopped w).
Proof.
  intros Hinv Hother. split; intros i t; cbn [fst snd]; intros Hl.
  - apply lookup_app_Some in Hl as [Hl | [Hge Hl]].
    + by apply stopped_quiet in Hl.
    + destruct (i - length (stopped w)) as [| k]; [| done].
      cbn in Hl. injection Hl as Hl. by apply Hother in Hl.
  - by apply stopped_quiet in Hl.
Qed.

Lemma sound_cleared w id :
  one_heartbeat w ->
  sound (heartbeatTimer (self w), <[id := None]> (timers w)).
Proof.
  intros Hinv i t. cbn [fst snd]. intros Hl. apply (Hinv i t). cbn [beat snd].
  destruct (decide (i = id)) as [-> | Hne].
  - destruct (decide (id < length (timers w))) as [Hlt | Hge].
    + by rewrite list_lookup_insert_eq in Hl.
    + by rewrite list_insert_ge in Hl by lia.
  - by rewrite list_lookup_insert_ne in Hl.
Qed.

(** Reads the outcome of a turn off the equation of [step]. *)
Ltac settle_step H :=
  match type of H with
  | Some ?x = Some (?w', ?r) =>
    let Hx := fresh in
    assert (Hx : x = (w', r)) by congruence; rewrite <- Hx
  end.

Lemma step_keeps_one_heartbeat a w w' r :
  one_heartbeat w -> step a w = Some (w', r) -> one_heartbeat w'.
Proof.
  intros Hinv Hstep. unfold one_heartbeat.
  change w' with (w', r).1.
  destruct a; cbn [step] in Hstep.
  - settle_step Hstep. rewrite connect_beat. exact Hinv.
  - settle_step Hstep. rewrite send_beat. exact Hinv.
  - settle_step Hstep. rewrite close_beat.
    by apply (sound_stopped w None).
  - case_bool_decide; [| discriminate]. settle_step Hstep.
    rewrite onopen_beat. by apply sound_restarted.
  - repeat case_match; try discriminate; settle_step Hstep;
      rewrite onerror_beat; exact Hinv.
  - repeat case_match; try discriminate; settle_step Hstep;
      rewrite onclose_beat; by apply sound_stopped.
  - repeat case_match; try discriminate; settle_step Hstep.
    + rewrite reconnect_beat. by apply sound_cleared.
    + rewrite tick_beat. exact Hinv.
Qed.

Lemma run_keeps_one_heartbeat actions :
  forall w w', one_heartbeat w -> run actions w = Some w' -> one_heartbeat w'.
Proof.
  induction actions as [| a rest IH]; intros w w' Hinv Hrun; cbn [run] in Hrun.
  - by injection Hrun as <-.
  - destruct (step a w) as [[w1 r] |] eqn:Hstep; [| discriminate].
    eapply IH; [| exact Hrun]. by eapply step_keeps_one_heartbeat.
Qed.

(** Whatever the application calls and the browser delivers, starting from
    a new manager, a heartbeat timer that is set is the one held in
    [heartbeatTimer]: there is never more than one, none is left running
    behind the manager's back, and [stopHeartbeat] stops them all. *)
Theorem at_most_one_heartbeat client reconnect heartbeat actions w :
  run actions (new_WebSocketManager client reconnect heartbeat) = Some w ->
  (forall i interval,
     timers w !! i = Some (Some (Heartbeat interval)) ->
     heartbeatTimer (self w) = Some (S i)) /\
  (forall i j ti tj,
     timers w !! i = Some (Some (Heartbeat ti)) ->
     timers w !! j = Some (Some (Heartbeat tj)) ->
     i = j).
Proof.
  intros Hrun.
  assert (Hinv : one_heartbeat w).
  { eapply run_keeps_one_heartbeat; [| exact Hrun]. intros i t Hl. done. }
  split; [exact Hinv |].
  intros i j ti tj Hi Hj. apply Hinv in Hi, Hj. cbn [beat fst] in Hi, Hj.
  congruence.
Qed.

(** *** [close], and what follows it *)

(** [close] returns normally from any state and leaves no socket, the flag
    down, no heartbeat and no handler; the state reads [CLOSED], and a
    [send] that follows it is dropped with one warning. *)
Theorem send_after_close_is_dropped data (w : World) :
  let closed := (close w).1 in
  (close w).2 = Return tt /\
  socket (self closed) = None /\
  isConnected (self closed) = false /\
  heartbeatTimer (self closed) = None /\
  messageHandlers (self closed) = ∅ /\
  getState closed = "CLOSED" /\
  send data closed
  = ({| self := self closed; sockets := sockets closed;
        timers := timers closed;
        effects := effects closed ++ [ConsoleWarn not_connected] |},
     Return tt).
Proof.
  destruct w as [[cid sk ri hi ht mh ic] socks tms effs].
  unfold close, bind, stopHeartbeat, socket_close, readyState.
  cbn [self heartbeatTimer socket].
  destruct ht, sk as [h |]; cbn; try (by repeat split).
  all: destruct (socks !! h) as [[] |]; by repeat split.
Qed.

Lemma onopen_run h (w : World) :
  (set_readyState h OPEN ;;; onopen) w
  = ({| self := set_heartbeatTimer (Some (S (length (timers w))))
                  (set_isConnected true (self w));
        sockets := <[h := OPEN]> (sockets w);
        timers := stopped w
                  ++ [Some (Heartbeat (heartbeatInterval (self w)))];
        effects := effects w ++ [ConsoleLog "WebSocket 連接已建立";
                                 WindowEvent "websocket:open"] |},
     Return tt).
Proof.
  destruct w as [[cid sk ri hi ht mh ic] socks tms effs].
  unfold stopped. cbn [self heartbeatTimer].
  destruct ht; cbn; unfold emit, effect, modify; cbn.
  - by rewrite length_insert, <- app_assoc.
  - by rewrite <- app_assoc.
Qed.

(** When the socket of the manager opens, the state reads [OPEN] and a
    [send] hands the frame to that socket, without a warning. *)
Theorem open_socket_transmits h data (w : World) :
  socket (self w) = Some h ->
  sockets w !! h = Some CONNECTING ->
  exists w',
    step (SocketOpens h) w = Some (w', Return tt) /\
    getState w' = "OPEN" /\
    isConnected (self w') = true /\
    send data w'
    = ({| self := self w'; sockets := sockets w'; timers := timers w';
          effects := effects w' ++ [Transmit h data] |}, Return tt).
Proof.
  intros Hsocket Hconnecting.
  pose proof (lookup_lt_Some _ _ _ Hconnecting) as Hlt.
  cbn [step]. rewrite bool_decide_true by exact Hconnecting.
  rewrite onopen_run. eexists. split; [reflexivity |].
  unfold getState, send, readyState.
  cbn [self socket isConnected sockets set_isConnected set_heartbeatTimer].
  rewrite Hsocket, list_lookup_insert_eq by exact Hlt.
  cbn [default]. by rewrite bool_decide_true.
Qed.

Lemma close_run (w : World) :
  close w
  = ({| self := {| clientId := clientId (self w); socket := None;
                   reconnectInterval := reconnectInterval (self w);
                   heartbeatInterval := heartbeatInterval (self w);
                   heartbeatTimer := None; messageHandlers := ∅;
                   isConnected := false |};
        sockets := match socket (self w) with
                   | Some h =>
                     match readyState h w with
                     | CONNECTING | OPEN => <[h := CLOSING]> (sockets w)
                     | CLOSING | CLOSED => sockets w
                     end
                   | None => sockets w
                   end;
        timers := stopped w; effects := effects w |},
     Return tt).
Proof.
  destruct w as [[cid sk ri hi ht mh ic] socks tms effs].
  unfold close, stopped, bind, stopHeartbeat, socket_close, readyState.
  cbn [self heartbeatTimer socket].
  destruct ht, sk as [h |]; cbn; try reflexivity.
  all: destruct (socks !! h) as [[] |]; reflexivity.
Qed.

Lemma onclose_run h (w : World) :
  heartbeatTimer (self w) = None ->
  (set_readyState h CLOSED ;;; onclose) w
  = ({| self := set_isConnected false (self w);
        sockets := <[h := CLOSED]> (sockets w);
        timers := timers w ++ [Some (Reconnect (reconnectInterval (self w)))];
        effects := effects w ++ [ConsoleLog "WebSocket 連接已關閉:";
                                 WindowEvent "websocket:close"] |},
     Return tt).
Proof.
  destruct w as [[cid sk ri hi ht mh ic] socks tms effs]. cbn [self heartbeatTimer].
  intros ->. cbn. by rewrite <- app_assoc.
Qed.

(** [close] does not end the reconnection: the close event of the socket
    it closed sets the reconnect timer as for any other close, and when that
    timer runs the manager is connecting again, on a new socket. *)
Theorem close_does_not_stop_reconnection h now (w : World) :
  socket (self w) = Some h ->
  sockets w !! h = Some CONNECTING \/ sockets w !! h = Some OPEN ->
  exists w',
    run [CallClose; SocketCloses h; TimerFires (S (length (timers w))) now] w
    = Some w' /\
    socket (self w') = Some (length (sockets w)) /\
    getState w' = "CONNECTING" /\
    isConnected (self w') = false.
Proof.
  intros Hsocket Hlive.
  assert (Hlt : h < length (sockets w))
    by (destruct Hlive as [Hl | Hl]; by apply lookup_lt_Some in Hl).
  cbn [run step]. rewrite close_run, Hsocket.
  assert (Hclosing : match readyState h w with
                     | CONNECTING | OPEN => <[h := CLOSING]> (sockets w)
                     | CLOSING | CLOSED => sockets w
                     end = <[h := CLOSING]> (sockets w)).
  { unfold readyState. by destruct Hlive as [-> | ->]. }
  rewrite Hclosing. cbn [sockets].
  rewrite list_lookup_insert_eq by exact Hlt.
  rewrite onclose_run by reflexivity.
  cbn [timers self set_isConnected reconnectInterval pred].
  assert (Hfire : forall t : option Timer,
             (stopped w ++ [t]) !! length (timers w) = Some t).
  { intros t. rewrite <- stopped_length. apply list_lookup_middle.
    reflexivity. }
  rewrite Hfire, bool_decide_false by done.
  eexists. split; [reflexivity |].
  unfold getState, readyState, connect, bind, new_WebSocket.
  cbn [fst snd self socket sockets effect modify modify_self set_socket
       isConnected clear_timer].
  rewrite !length_insert. split; [reflexivity |].
  rewrite lookup_app_r, !length_insert, Nat.sub_diag
    by (rewrite !length_insert; lia).
  by split.
Qed.

(** *** Runs *)

(** The manager with its first socket connecting, with it open, and after
    the turns of [restart]. *)
Definition connecting : World :=
  Eval vm_compute in default fresh_manager (run [CallConnect] fresh_manager).

Definition opened : World :=
  Eval vm_compute in
    default fresh_manager (run [CallConnect; SocketOpens 0] fresh_manager).

Definition restarted : World :=
  Eval vm_compute in default fresh_manager (run restart fresh_manager).

Lemma restarted_run :
  run restart (new_WebSocketManager "client-1" None None) = Some restarted.
Proof. vm_compute. reflexivity. Defined.

(** On a new manager: no socket, flag down. *)
Lemma send_when_not_open_drops_witness :
  getState fresh_manager <> "OPEN" /\
  (isConnected (self fresh_manager) = true ->
   socket (self fresh_manager) <> None) /\
  effects (send ping fresh_manager).1 = [ConsoleWarn not_connected].
Proof.
  assert (Hstate : getState fresh_manager <> "OPEN") by discriminate.
  assert (Hflag : isConnected (self fresh_manager) = true ->
                  socket (self fresh_manager) <> None) by discriminate.
  split; [exact Hstate |]. split; [exact Hflag |].
  by rewrite (send_when_not_open_drops ping fresh_manager Hstate Hflag).
Defined.

(** After the turns of [restart], the one heartbeat that is set is timer
    2, and the manager holds it. *)
Lemma at_most_one_heartbeat_witness :
  run restart fresh_manager = Some restarted /\
  timers restarted !! 1 = Some (Some (Heartbeat 30000)) /\
  heartbeatTimer (self restarted) = Some 2.
Proof.
  split; [exact restarted_run |]. split; [reflexivity |].
  exact (proj1 (at_most_one_heartbeat "client-1" None None restart restarted
                  restarted_run) 1 30000%N eq_refl).
Defined.

(** On [connecting]. *)
Lemma open_socket_transmits_witness :
  socket (self connecting) = Some 0 /\
  sockets connecting !! 0 = Some CONNECTING /\
  exists w',
    step (SocketOpens 0) connecting = Some (w', Return tt) /\
    last (effects (send ping w').1) = Some (Transmit 0 ping).
Proof.
  split; [reflexivity |]. split; [reflexivity |].
  destruct (open_socket_transmits 0 ping connecting eq_refl eq_refl)
    as (w' & Hstep & _ & _ & Hsend).
  exists w'. split; [exact Hstep |]. rewrite Hsend. apply last_snoc.
Defined.

(** On [opened]: closing the open connection. *)
Lemma close_does_not_stop_reconnection_witness :
  socket (self opened) = Some 0 /\
  sockets opened !! 0 = Some OPEN /\
  exists w',
    run [CallClose; SocketCloses 0; TimerFires 2 0] opened = Some w' /\
    getState w' = "CONNECTING".
Proof.
  split; [reflexivity |]. split; [reflexivity |].
  destruct (close_does_not_stop_reconnection 0 0 opened eq_refl
              (or_intror eq_refl)) as (w' & Hrun & _ & Hstate & _).
  exists w'. split; [exact Hrun | exact Hstate].
Defined.

End WebSocketManager.

(** ** Text helpers

    The formatting functions at the end of
    [static/js/core/WebSocketManager.js]. *)

Module Formatters.

(** A string of the language, by its UTF-16 code units, which is what
    [length] and [substring] count. *)
Definition JsString : Type := list N.

(** ['...'] *)
Definition ellipsis : JsString := [46; 46; 46]%N.

(** [truncateText(text, maxLength, suffix = '...')]. A text that is [null]
    or [undefined] is [None]; [maxLength] is a length, a non-negative
    integer. *)
Definition truncateText (text : option JsString) (maxLength : nat)
  (suffix : option JsString) : JsString :=
  match text with
  | None => []
  | Some t =>
    if (bool_decide (t = []) || bool_decide (length t <= maxLength))%bool
    then t
    else take maxLength t ++ default ellipsis suffix
  end.

(** [truncateText] keeps the first [maxLength] units of the text. A text
    that is not longer than [maxLength] comes back as it is; a longer one
    is cut to [maxLength] units and then has the suffix appended, so the
    result is longer than [maxLength] by the length of the suffix. *)
Theorem truncateText_keeps_prefix (text : JsString) maxLength suffix :
  let result := truncateText (Some text) maxLength suffix in
  take maxLength result = take maxLength text /\
  (length text <= maxLength -> result = text) /\
  (maxLength < length text ->
   length result = maxLength + length (default ellipsis suffix)).
Proof.
  cbn zeta. unfold truncateText.
  destruct (decide (length text <= maxLength)) as [Hshort | Hlong].
  - rewrite (bool_decide_true (length text <= maxLength)) by exact Hshort.
    rewrite orb_true_r. split; [reflexivity |]. split; [done | lia].
  - rewrite (bool_decide_false (length text <= maxLength)) by exact Hlong.
    rewrite bool_decide_false by (intros ->; cbn in Hlong; lia).
    cbn [orb]. split; [| split].
    + rewrite take_app_le by (rewrite length_take; lia).
      rewrite take_take. f_equal. lia.
    + lia.
    + intros _. rewrite length_app, length_take. lia.
Qed.

(** ["abcd"] cut at 3 becomes ["abc..."], which is longer than the text
    was. *)
Lemma truncateText_keeps_prefix_witness :
  3 < length [97; 98; 99; 100]%N /\
  length (truncateText (Some [97; 98; 99; 100]%N) 3 None) = 6.
Proof.
  split; [cbn; lia |].
  exact (proj2 (proj2 (truncateText_keeps_prefix [97; 98; 99; 100]%N 3 None))
           ltac:(cbn; lia)).
Defined.

End Formatters.
